(** * Ai-Email-Sticky: the mailbox ingestion pipeline

    A shallow embedding of [Ai-Email-Sticky.py]: the persistence layer
    (tables [tasks], [metadata], [processed_uids]), the summary and
    classification adapters, and one polling cycle [GmailPoller.check_mail].

    Conventions of the embedding.
    - A Python [str] is a [string]; its characters are code points below 256.
      The character tables ([isspace], line boundaries, [\w]) are Python's,
      restricted to that range.
    - The three SQLite tables are the fields of [db]; every function of the
      persistence layer opens a connection, runs its statements and commits,
      so each is a function [db -> db] (with a result where it returns one).
    - What the outside world answers (the IMAP server, the OpenAI endpoint,
      the clock, the process environment) is an explicit argument, and so
      is every place where a call into it can raise: connecting, the
      search, a fetch, the logout, the status callback.
    - An exception is a result: [None] for an [int] or a configuration
      read that raises, [Raise] for a pass of the loop, [res_raised] for
      [check_mail]. Statements on the database file are taken to succeed.
    - [run] takes the cycles and the commands of the window one at a time;
      what two calls of [add_task] in two threads do to each other is
      modelled statement by statement ([add_task_step], [interleave]). *)

From Stdlib Require Import ZArith Ascii String DecimalString DecimalPos DecimalZ.
From stdpp Require Import gmap strings list sorting.

Local Open Scope string_scope.
Local Open Scope Z_scope.
Local Open Scope list_scope.

(* ===================================================================== *)
(** * Python strings *)
(* ===================================================================== *)

Module PyStr.

Abbreviation chars := list_ascii_of_string.
Abbreviation str_of := string_of_list_ascii.

Definition code (c : ascii) : N := N_of_ascii c.

Definition in_range (lo hi : N) (c : ascii) : bool :=
  ((lo <=? code c) && (code c <=? hi))%N.

(** [str.isspace] per character: TAB..CR, FS..US, SPACE, NEL, NBSP. *)
Definition isspace (c : ascii) : bool :=
  in_range 9 13 c || in_range 28 31 c || in_range 32 32 c
  || in_range 133 133 c || in_range 160 160 c.

(** Line boundaries of [str.splitlines] other than the pair CR LF:
    LF, VT, FF, CR, FS, GS, RS, NEL. *)
Definition is_linebreak (c : ascii) : bool :=
  in_range 10 13 c || in_range 28 30 c || in_range 133 133 c.

(** [\w] of the [re] module on [str] patterns: alphanumerics and [_]. *)
Definition is_word (c : ascii) : bool :=
  in_range 48 57 c || in_range 65 90 c || in_range 95 95 c
  || in_range 97 122 c || in_range 170 170 c || in_range 178 179 c
  || in_range 181 181 c || in_range 185 186 c || in_range 188 190 c
  || in_range 192 214 c || in_range 216 246 c || in_range 248 255 c.

(** [bool(s)] for a string. *)
Definition truthy (s : string) : bool :=
  match s with EmptyString => false | String _ _ => true end.

(** [a or b] on strings. *)
Definition or_else (a b : string) : string := if truthy a then a else b.

Fixpoint drop_while {A} (p : A -> bool) (l : list A) : list A :=
  match l with
  | [] => []
  | x :: l' => if p x then drop_while p l' else l
  end.

Definition lstrip_by (p : ascii -> bool) (l : list ascii) : list ascii :=
  drop_while p l.
Definition rstrip_by (p : ascii -> bool) (l : list ascii) : list ascii :=
  reverse (drop_while p (reverse l)).

Definition lstrip (s : string) : string := str_of (lstrip_by isspace (chars s)).
Definition rstrip (s : string) : string := str_of (rstrip_by isspace (chars s)).
Definition strip (s : string) : string :=
  str_of (rstrip_by isspace (lstrip_by isspace (chars s))).

(** [s[:n]], for any integer [n]: a negative [n] counts from the end. *)
Definition slice_to (s : string) (n : Z) : string :=
  let l := chars s in
  if 0 <=? n then str_of (take (Z.to_nat n) l)
  else str_of (take (length l - Z.to_nat (- n)) l).

(** [s.startswith(p)] *)
Definition startswith (s p : string) : bool := String.prefix p s.

(** [p in s] *)
Fixpoint contains (p s : string) : bool :=
  String.prefix p s ||
  match s with
  | EmptyString => false
  | String _ s' => contains p s'
  end.

(** [str.splitlines()]: CR LF is one boundary, and a boundary at the very
    end opens no further line. [cur] is the current line, reversed. *)
Fixpoint splitlines_go (cur : list ascii) (l : list ascii) : list string :=
  match l with
  | [] => match cur with [] => [] | _ => [str_of (reverse cur)] end
  | c :: l' =>
      if is_linebreak c then
        match l' with
        | c' :: l'' =>
            if (code c =? 13)%N && (code c' =? 10)%N
            then str_of (reverse cur) :: splitlines_go [] l''
            else str_of (reverse cur) :: splitlines_go [] l'
        | [] => str_of (reverse cur) :: splitlines_go [] l'
        end
      else splitlines_go (c :: cur) l'
  end.
Definition splitlines (s : string) : list string := splitlines_go [] (chars s).

(** [re.sub(r"\s+", " ", s)]: [in_ws] tells that the run of whitespace
    being read has already been replaced. *)
Fixpoint collapse_ws (in_ws : bool) (l : list ascii) : list ascii :=
  match l with
  | [] => []
  | c :: l' =>
      if isspace c
      then (if in_ws then collapse_ws true l' else " "%char :: collapse_ws true l')
      else c :: collapse_ws false l'
  end.
Definition re_sub_ws (s : string) : string := str_of (collapse_ws false (chars s)).

(** [s.replace("\n", " ")] *)
Definition replace_nl (s : string) : string :=
  str_of (map (fun c => if (code c =? 10)%N then " "%char else c) (chars s)).

(** [re.sub(r"^\W+|\W+$", "", s)] *)
Definition re_trim_nonword (s : string) : string :=
  let nw c := negb (is_word c) in
  str_of (rstrip_by nw (lstrip_by nw (chars s))).

(** [str.lower()] per character: A..Z and the Latin-1 capitals. *)
Definition lower_char (c : ascii) : ascii :=
  if in_range 65 90 c || (in_range 192 222 c && negb (in_range 215 215 c))
  then ascii_of_N (code c + 32) else c.
Definition lower (s : string) : string := str_of (map lower_char (chars s)).

(** [s.split(sep, 1)[0]] for a one-character separator. *)
Fixpoint before_char (sep : ascii) (l : list ascii) : list ascii :=
  match l with
  | [] => []
  | c :: l' => if Ascii.eqb c sep then [] else c :: before_char sep l'
  end.
Definition split1_head (sep : ascii) (s : string) : string :=
  str_of (before_char sep (chars s)).

(** [s.split(sep)] for a one-character separator: never empty. *)
Fixpoint split_go (sep : ascii) (cur : list ascii) (l : list ascii) : list string :=
  match l with
  | [] => [str_of (reverse cur)]
  | c :: l' =>
      if Ascii.eqb c sep then str_of (reverse cur) :: split_go sep [] l'
      else split_go sep (c :: cur) l'
  end.
Definition split (sep : ascii) (s : string) : list string :=
  split_go sep [] (chars s).

(** [str(n)] for an integer. *)
Definition str (n : Z) : string := NilZero.string_of_int (Z.to_int n).

(** [int(s)] for a string: [None] stands for [ValueError]. Whitespace on
    either side is skipped (here the set is TAB..CR, SPACE, NEL, NBSP: the
    separators FS..US are no whitespace for [int]); what is left is an
    optional sign and decimal digits, where one underscore may stand between
    two digits. Below code point 256 the decimal digits are [0]..[9]. The
    bound that CPython 3.11 puts on the number of digits is left out. *)
Definition int_space (c : ascii) : bool :=
  in_range 9 13 c || in_range 32 32 c || in_range 133 133 c
  || in_range 160 160 c.

Definition is_digit (c : ascii) : bool := in_range 48 57 c.
Definition digit_value (c : ascii) : Z := Z.of_N (code c) - 48.

(** The digits, most significant first: [after_digit] tells that the
    character just read was a digit. *)
Fixpoint int_digits (acc : Z) (after_digit : bool) (l : list ascii)
  : option Z :=
  match l with
  | [] => if after_digit then Some acc else None
  | c :: l' =>
      if is_digit c then int_digits (10 * acc + digit_value c) true l'
      else if Ascii.eqb c "_" && after_digit then int_digits acc false l'
      else None
  end.

Definition int (s : string) : option Z :=
  match rstrip_by int_space (lstrip_by int_space (chars s)) with
  | [] => None
  | c :: l =>
      if Ascii.eqb c "+" then int_digits 0 false l
      else if Ascii.eqb c "-" then Z.opp <$> int_digits 0 false l
      else int_digits 0 false (c :: l)
  end.

End PyStr.

(* ===================================================================== *)
(** * Summaries *)
(* ===================================================================== *)

(** The [for] loop of [heuristic_summary]: the first line that is neither
    blank nor quoted, whitespace-collapsed, cut and right-stripped. *)
Fixpoint heuristic_summary_loop (lines : list string) (max_len : Z) : option string :=
  match lines with
  | [] => None
  | line :: rest =>
      let s := PyStr.strip line in
      if PyStr.truthy s && negb (PyStr.startswith s ">")
      then Some (PyStr.rstrip (PyStr.slice_to (PyStr.re_sub_ws s) max_len))
      else heuristic_summary_loop rest max_len
  end.

Definition heuristic_summary (text : string) (max_len : Z) : string :=
  match heuristic_summary_loop (PyStr.splitlines text) max_len with
  | Some r => r
  | None =>
      PyStr.rstrip (PyStr.slice_to (PyStr.replace_nl (PyStr.strip text)) max_len)
  end.

(** What the remote endpoint did with one request: everything between
    [client = OpenAI(...)] and the read of [choices[0].message.content].
    [RemoteRaise e] is any exception raised there ([e] is the text
    [f"{type(e).__name__}: {e}"]); [RemoteContent c] is the [content] field,
    which the SDK types as optional. The request itself (prompt, model,
    temperature) only influences which reply comes back, so the adapters take
    the reply as an argument. *)
Inductive remote_reply :=
| RemoteRaise (e : string)
| RemoteContent (content : option string).

(** The process environment the adapters look at: whether [from openai
    import OpenAI] succeeded at start-up, and [os.getenv("OPENAI_API_KEY","")]. *)
Record ai_env := {
  sdk_importable : bool;
  env_api_key : string
}.

(** [api_key or os.getenv("OPENAI_API_KEY", "")] *)
Definition effective_key (api_key : option string) (env : ai_env) : string :=
  PyStr.or_else (default "" api_key) (env_api_key env).

(** [llm_summary] returns [(sentence, mode)]; the third component is the
    global [LAST_AI_ERROR] after the call, [err] being its value before. *)
Definition llm_summary (text subject : string) (api_key : option string)
    (max_len : Z) (env : ai_env) (reply : remote_reply) (err : string)
  : string * string * string :=
  if negb (sdk_importable env) then
    (heuristic_summary text max_len, "OFF",
     "OpenAI SDK not importable; install with: pip install openai")
  else if negb (PyStr.truthy (effective_key api_key env)) then
    (heuristic_summary text max_len, "OFF",
     "OPENAI_API_KEY not set (env var or [ai] api_key).")
  else
    match reply with
    | RemoteContent (Some content) =>
        let out := PyStr.strip content in
        let out := PyStr.re_trim_nonword out in
        (PyStr.or_else (PyStr.strip (PyStr.slice_to out max_len))
                       (heuristic_summary text max_len), "ON", err)
    | RemoteContent None =>
        (* [None.strip()] raises AttributeError inside the [try] *)
        (heuristic_summary text max_len, "FALLBACK",
         "AttributeError: 'NoneType' object has no attribute 'strip'")
    | RemoteRaise e => (heuristic_summary text max_len, "FALLBACK", e)
    end.

(** [ai_classify_label] returns [(label, mode)], and [LAST_AI_ERROR] as for
    [llm_summary]. *)
Definition ai_classify_label (text subject : string) (api_key : option string)
    (env : ai_env) (reply : remote_reply) (err : string)
  : string * string * string :=
  if negb (sdk_importable env) then ("actionable", "OFF", err)
  else if negb (PyStr.truthy (effective_key api_key env)) then
    ("actionable", "OFF", err)
  else
    match reply with
    | RemoteContent content =>
        let label := PyStr.lower (PyStr.strip (default "" content)) in
        let label :=
          if PyStr.contains "market" label then "marketing"
          else if PyStr.contains "fyi" label then "fyi"
          else "actionable" in
        (label, "ON", err)
    | RemoteRaise e => ("actionable", "FALLBACK", e)
    end.

(* ===================================================================== *)
(** * Persistence *)
(* ===================================================================== *)

(** Instants are microseconds since the epoch; the columns that hold
    [datetime.utcnow().isoformat()] hold the instant, and
    [datetime.fromisoformat] on them cannot fail. *)
Definition timestamp := Z.

(** A row of [tasks]. [tid] is the column [id]. *)
Record task := {
  tid : Z;
  email_uid : option string;
  subject : string;
  snippet : string;
  task_text : string;
  created_at : timestamp;
  completed_at : option timestamp;
  is_completed : Z;
  archived_at : option timestamp
}.

(** The database file: the three tables, and the AUTOINCREMENT counter of
    [tasks] (the largest [id] ever handed out). [tasks] is in rowid order. *)
Record db := {
  tasks : list task;
  tasks_seq : Z;
  metadata : gmap string string;
  processed_uids : gset string
}.

(** [ensure_db] on a fresh file. *)
Definition ensure_db : db :=
  {| tasks := []; tasks_seq := 0; metadata := ∅; processed_uids := ∅ |}.

Definition set_tasks (f : list task -> list task) (d : db) : db :=
  {| tasks := f (tasks d); tasks_seq := tasks_seq d;
     metadata := metadata d; processed_uids := processed_uids d |}.

Definition save_metadata (key value : string) (d : db) : db :=
  {| tasks := tasks d; tasks_seq := tasks_seq d;
     metadata := <[key := value]> (metadata d);
     processed_uids := processed_uids d |}.

Definition get_metadata (key default_ : string) (d : db) : string :=
  default default_ (metadata d !! key).

Definition is_uid_processed (uid : string) (d : db) : bool :=
  bool_decide (uid ∈ processed_uids d).

Definition mark_uid_processed (uid : string) (d : db) : db :=
  {| tasks := tasks d; tasks_seq := tasks_seq d; metadata := metadata d;
     processed_uids := {[uid]} ∪ processed_uids d |}.

(** [bool(email_uid)] and the string behind it. *)
Definition uid_truthy (email_uid : option string) : bool :=
  match email_uid with Some u => PyStr.truthy u | None => false end.
Definition uid_str (email_uid : option string) : string := default "" email_uid.

(** The [INSERT INTO tasks] of [add_task]. *)
Definition insert_task (task_text subject snippet : string)
    (email_uid : option string) (now : timestamp) (d : db) : db :=
  let row := {| tid := tasks_seq d + 1; email_uid := email_uid;
                subject := subject; snippet := snippet;
                task_text := task_text; created_at := now;
                completed_at := None; is_completed := 0;
                archived_at := None |} in
  {| tasks := tasks d ++ [row]; tasks_seq := tasks_seq d + 1;
     metadata := metadata d; processed_uids := processed_uids d |}.

Definition add_task (task_text subject snippet : string)
    (email_uid : option string) (now : timestamp) (d : db) : db * bool :=
  if uid_truthy email_uid && is_uid_processed (uid_str email_uid) d then
    (d, false)
  else
    let d := insert_task task_text subject snippet email_uid now d in
    let d := if uid_truthy email_uid
             then mark_uid_processed (uid_str email_uid) d else d in
    (d, true).

(** A row as the [SELECT] of [list_active_tasks] returns it:
    [(id, task_text, is_completed, completed_at, subject)]. *)
Definition row : Type := Z * string * Z * option timestamp * string.

Definition row_of (t : task) : row :=
  (tid t, task_text t, is_completed t, completed_at t, subject t).

(** [ORDER BY is_completed, id DESC] *)
Definition row_before (r1 r2 : row) : Prop :=
  let '(id1, _, done1, _, _) := r1 in
  let '(id2, _, done2, _, _) := r2 in
  done1 < done2 ∨ (done1 = done2 ∧ id2 ≤ id1).

#[global] Instance row_before_dec : RelDecision row_before.
Proof.
  intros [[[[id1 ?] done1] ?] ?] [[[[id2 ?] done2] ?] ?]; simpl; apply _.
Defined.

(** [SELECT ... FROM tasks WHERE archived_at IS NULL ORDER BY ...] *)
Definition select_active (d : db) : list row :=
  merge_sort row_before
    (row_of <$> filter (λ t, archived_at t = None) (tasks d)).

Definition hours (h : Z) : Z := h * 3600000000.

(** The loop that fills [to_archive]. *)
Definition stale (cutoff : timestamp) (r : row) : bool :=
  let '(_, _, done, comp_at, _) := r in
  match comp_at with
  | Some c => negb (done =? 0) && (c <? cutoff)
  | None => false
  end.
Definition to_archive_of (cutoff : timestamp) (rows : list row) : list Z :=
  (λ r : row, r.1.1.1.1) <$> filter (λ r, stale cutoff r = true) rows.

(** [UPDATE tasks SET archived_at=? WHERE id IN (...)] *)
Definition archive_ids (now : timestamp) (ids : list Z) (d : db) : db :=
  set_tasks (fmap (λ t,
    if bool_decide (tid t ∈ ids)
    then {| tid := tid t; email_uid := email_uid t; subject := subject t;
            snippet := snippet t; task_text := task_text t;
            created_at := created_at t; completed_at := completed_at t;
            is_completed := is_completed t; archived_at := Some now |}
    else t)) d.

(** [SELECT COUNT( * ) FROM tasks WHERE archived_at IS NULL AND is_completed=v] *)
Definition count_active (v : Z) (d : db) : Z :=
  Z.of_nat (length (filter (λ t, archived_at t = None ∧ is_completed t = v)
                           (tasks d))).

Inductive listing :=
| Rows (rows : list row)
| RowsCounts (rows : list row) (active_count completed_count : Z).

(** [list_active_tasks]. The clock is read twice: [now_cutoff] at entry,
    [now_archive] when the batch is stamped. *)
Definition list_active_tasks (retention_hours : Z) (return_counts : bool)
    (now_cutoff now_archive : timestamp) (d : db) : db * listing :=
  let cutoff := now_cutoff - hours retention_hours in
  let rows := select_active d in
  let to_archive := to_archive_of cutoff rows in
  let '(d, rows) :=
    match to_archive with
    | [] => (d, rows)
    | _ => let d := archive_ids now_archive to_archive d in
           (d, select_active d)
    end in
  let active_count := count_active 0 d in
  let completed_count := count_active 1 d in
  if return_counts then (d, RowsCounts rows active_count completed_count)
  else (d, Rows rows).

Definition mark_task_completed (task_id : Z) (done : bool) (now : timestamp)
    (d : db) : db :=
  set_tasks (fmap (λ t,
    if bool_decide (tid t = task_id)
    then {| tid := tid t; email_uid := email_uid t; subject := subject t;
            snippet := snippet t; task_text := task_text t;
            created_at := created_at t;
            completed_at := if done then Some now else None;
            is_completed := if done then 1 else 0;
            archived_at := archived_at t |}
    else t)) d.

Definition delete_task (task_id : Z) (d : db) : db :=
  set_tasks (filter (λ t, tid t ≠ task_id)) d.

(** [archive_all_completed_now] returns [cur.rowcount]. *)
Definition archive_all_completed_now (now : timestamp) (d : db) : db * Z :=
  let hit t := bool_decide (archived_at t = None ∧ is_completed t = 1) in
  (set_tasks (fmap (λ t,
     if hit t
     then {| tid := tid t; email_uid := email_uid t; subject := subject t;
             snippet := snippet t; task_text := task_text t;
             created_at := created_at t; completed_at := completed_at t;
             is_completed := is_completed t; archived_at := Some now |}
     else t)) d,
   Z.of_nat (length (filter (λ t, hit t = true) (tasks d)))).

(* ===================================================================== *)
(** * Configuration *)
(* ===================================================================== *)

(** What [cfg.get] finds for an option that is present: its value after
    interpolation, or the exception of an interpolation that fails (a [%]
    followed by neither [%] nor [(], as in a password [a%b], or a reference
    to an option that is not there). *)
Inductive cfg_value :=
| Value (v : string)
| Unreadable.

(** The parsed [config.ini], by [(section, option)]. *)
Definition config := gmap (string * string) cfg_value.

(** [cfg.get(section, option, fallback=...)]: an option that is absent
    gives the fallback as it is, [None] stands for the exception. *)
Definition cfg_get (cfg : config) (section option_ fallback : string)
  : option string :=
  match cfg !! (section, option_) with
  | None => Some fallback
  | Some (Value v) => Some v
  | Some Unreadable => None
  end.

(** [cfg.getboolean(section, option, fallback=...)]: [None] stands for the
    exception of the interpolation, or the [ValueError] of a value that is
    no boolean. *)
Definition cfg_getboolean (cfg : config) (section option_ : string)
    (fallback : bool) : option bool :=
  match cfg !! (section, option_) with
  | None => Some fallback
  | Some Unreadable => None
  | Some (Value v) =>
      let v := PyStr.lower v in
      if bool_decide (v ∈ ["1"; "yes"; "true"; "on"]) then Some true
      else if bool_decide (v ∈ ["0"; "no"; "false"; "off"]) then Some false
      else None
  end.

(** [get_bool]: an exception of [cfg.get] is caught and gives the
    fallback. *)
Definition get_bool (cfg : config) (section option_ : string)
    (fallback : bool) : bool :=
  match cfg_get cfg section option_ (if fallback then "True" else "False") with
  | None => fallback
  | Some raw =>
      let raw := PyStr.lower (PyStr.strip
                   (PyStr.split1_head "#" (PyStr.split1_head ";" raw))) in
      bool_decide (raw ∈ ["1"; "true"; "t"; "yes"; "y"; "on"])
  end.

(** [{x.strip().lower() for x in drop_labels_csv.split(",") if x.strip()}] *)
Definition drop_set_of (drop_labels_csv : string) : gset string :=
  list_to_set
    ((λ x, PyStr.lower (PyStr.strip x)) <$>
     filter (λ x, PyStr.truthy (PyStr.strip x) = true)
            (PyStr.split "," drop_labels_csv)).

(* ===================================================================== *)
(** * The poller *)
(* ===================================================================== *)

(** A fetched message after [email.message_from_bytes] and the header and
    body extraction of [check_mail]: [msg_from_addr] is
    [parseaddr(From)[1]], [msg_received] the formatted local time ([None]
    when the [Date] header does not parse), [msg_body] the decoded text. *)
Record message := {
  msg_subject : string;
  msg_from_addr : string;
  msg_received : option string;
  msg_body : string
}.

(** [M.uid("fetch", ...)] and the parsing of what it returns (lines 366 to
    401): an exception of either, a reply that fails the test
    [typ != "OK" or not msg_data or not msg_data[0]], or a message. *)
Inductive fetch_reply :=
| FetchRaise
| FetchNotOk
| FetchOk (msg : message).

(** [M.uid("search", None, query)]: an exception (of the call, or of the
    splitting and decoding of [data[0]]), or [typ] and the decoded tokens
    of [data[0].split()]. *)
Inductive search_reply :=
| SearchRaise
| SearchReply (typ : string) (tokens : list string).

(** What the world answers during the [k]-th pass through the loop. *)
Record iter_world := {
  w_fetch : fetch_reply;
  w_classify : remote_reply;
  w_summary : remote_reply;
  w_clock : timestamp
}.

(** What the world answers during one call of [check_mail]: whether
    connecting, logging in and selecting the folder went through, the
    server's answer to the search, the answers per pass, whether
    [M.logout()] returns (rather than raises), and whether the status
    callback returns when it is called. The reply to [M.uid("store", ...)]
    is left out: its exceptions are swallowed and it touches no local
    state. *)
Record world := {
  w_ai : ai_env;
  w_connect : bool;
  w_search : string -> search_reply;
  w_iter : nat -> iter_world;
  w_logout : bool;
  w_callback : bool
}.

Record GmailPoller := {
  cfg : config;
  status_callback : bool   (* is a callback installed *)
}.

(** The local variables of the loop, with the two pieces of global state
    the loop writes: the database and [LAST_AI_ERROR]. *)
Record loop_state := {
  ls_db : db;
  ls_err : string;
  max_seen_uid : Z;
  last_ai_mode : option string;
  new_count : Z;
  dropped : Z
}.

(** How a pass ends: the loop goes on ([continue] or the end of the body), or
    an exception leaves [check_mail]. *)
Inductive flow := Next | Raise.

(** [max_seen_uid = max(max_seen_uid, int(uid_s))] *)
Definition bump (uid_s : string) (st : loop_state) : loop_state * flow :=
  match PyStr.int uid_s with
  | Some n =>
      ({| ls_db := ls_db st; ls_err := ls_err st;
          max_seen_uid := Z.max (max_seen_uid st) n;
          last_ai_mode := last_ai_mode st;
          new_count := new_count st; dropped := dropped st |}, Next)
  | None => (st, Raise)
  end.

Definition dquote : string := String (ascii_of_N 34) "".

(** The values [check_mail] reads from the configuration before the loop. *)
Record loop_cfg := {
  lc_ai_key : option string;
  lc_ai_enabled : bool;
  lc_mark_as_read : bool
}.

(** The body of [for uid_s in uids]. *)
Definition loop_body (cfg : config) (lc : loop_cfg) (ai : ai_env)
    (iw : iter_world) (uid_s : string) (st : loop_state) : loop_state * flow :=
  if is_uid_processed uid_s (ls_db st) then bump uid_s st
  else
    match w_fetch iw with
    | FetchRaise => (st, Raise)
    | FetchNotOk => (st, Next)
    | FetchOk msg =>
        let subject := msg_subject msg in
        let sender_email := PyStr.or_else (msg_from_addr msg) "(unknown)" in
        let received_str := default "(unknown date)" (msg_received msg) in
        let body := msg_body msg in
        let classify_enabled := get_bool cfg "ai" "classify_before_add" true in
        match cfg_get cfg "ai" "drop_labels" "marketing, fyi" with
        | None => (st, Raise)
        | Some drop_labels_csv =>
        let drop_set := drop_set_of drop_labels_csv in
        let '(cls_label, _, err1) :=
          if classify_enabled
          then ai_classify_label body subject (lc_ai_key lc) ai
                 (w_classify iw) (ls_err st)
          else ("", "", ls_err st) in
        if classify_enabled && bool_decide (cls_label ∈ drop_set) then
          bump uid_s
            {| ls_db := mark_uid_processed uid_s (ls_db st); ls_err := err1;
               max_seen_uid := max_seen_uid st;
               last_ai_mode := last_ai_mode st;
               new_count := new_count st; dropped := dropped st + 1 |}
        else
          let snippet :=
            PyStr.slice_to
              (match PyStr.splitlines (PyStr.strip body) with
               | [] => ""
               | l :: _ => l
               end) 140 in
          let '(summary, ai_mode, err2) :=
            if lc_ai_enabled lc
            then llm_summary body subject (lc_ai_key lc) 140 ai
                   (w_summary iw) err1
            else (heuristic_summary body 140, "OFF", err1) in
          let line := "From: " +:+ sender_email +:+ " | Received: "
                      +:+ received_str +:+ " | Summary: " +:+ summary in
          let '(d, created) :=
            add_task line subject snippet (Some uid_s) (w_clock iw)
                     (ls_db st) in
          bump uid_s
            {| ls_db := d; ls_err := err2;
               max_seen_uid := max_seen_uid st;
               last_ai_mode := Some ai_mode;
               new_count := new_count st; dropped := dropped st |}
        end
    end.

(** The loop: pass [k] takes the [k]-th answer of the world. *)
Fixpoint loop (cfg : config) (lc : loop_cfg) (ai : ai_env)
    (iter : nat -> iter_world) (k : nat) (uids : list string)
    (st : loop_state) : loop_state * flow :=
  match uids with
  | [] => (st, Next)
  | uid_s :: rest =>
      match loop_body cfg lc ai (iter k) uid_s st with
      | (st, Next) => loop cfg lc ai iter (S k) rest st
      | (st, Raise) => (st, Raise)
      end
  end.

(** [sorted(uids, key=lambda s: int(s))]: the keys are computed first (one
    that is no integer raises), the sort is stable. *)
Definition int_keys (uids : list string) : option (list (Z * string)) :=
  mapM (λ u, (λ n, (n, u)) <$> PyStr.int u) uids.

Fixpoint insert_by_key (x : Z * string) (l : list (Z * string))
  : list (Z * string) :=
  match l with
  | [] => [x]
  | y :: l' => if x.1 <=? y.1 then x :: l else y :: insert_by_key x l'
  end.

Definition sorted_by_int (uids : list string) : option (list string) :=
  (λ l, snd <$> foldr insert_by_key [] l) <$> int_keys uids.

(** What one call of [check_mail] leaves behind: the database,
    [LAST_AI_ERROR], the text handed to the status callback if it was
    called, and whether the call ended in an exception. *)
Record cycle_result := {
  res_db : db;
  res_err : string;
  res_status : option string;
  res_raised : bool
}.

Definition returned (d : db) (err : string) (status : option string) :=
  {| res_db := d; res_err := err; res_status := status; res_raised := false |}.
Definition raised (d : db) (err : string) :=
  {| res_db := d; res_err := err; res_status := None; res_raised := true |}.

(** [if self.status_callback: self.status_callback(text)] as the last
    statement that can fail: the callback, if there is one, is handed the
    text, and the call ends in an exception when the callback raises. *)
Definition report (self : GmailPoller) (w : world) (d : db) (err : string)
    (text : string) : cycle_result :=
  if status_callback self
  then {| res_db := d; res_err := err; res_status := Some text;
          res_raised := negb (w_callback w) |}
  else returned d err None.

(** [M.logout()] and then the report. *)
Definition logout_report (self : GmailPoller) (w : world) (d : db)
    (err : string) (text : string) : cycle_result :=
  if w_logout w then report self w d err text else raised d err.

(** [int(last_uid or 0)] *)
Definition int_or_0 (last_uid : string) : option Z :=
  if PyStr.truthy last_uid then PyStr.int last_uid else Some 0.

(** The search query. *)
Definition query_of (last_uid cutoff : string) : option string :=
  base_q ← (if PyStr.truthy last_uid
             then (λ n, "(UID " +:+ PyStr.str (n + 1) +:+ ":*)") <$>
                  PyStr.int last_uid
             else Some "ALL");
  Some (if PyStr.truthy cutoff
        then "(SINCE " +:+ dquote +:+ cutoff +:+ dquote +:+ ") " +:+ base_q
        else base_q).

Definition status_line (mode : string) (new_count dropped : Z) : string :=
  "AI " +:+ mode +:+ " | +" +:+ PyStr.str new_count +:+ " / dropped "
  +:+ PyStr.str dropped.

(** The values read at lines 316 to 322, in this order: [server],
    [username], [password], [folder], [ssl], [cutoff_date], [mark_as_read].
    Each read but the last can raise; host, folder and [ssl] only go into
    the connection. *)
Record imap_cfg := {
  ic_user : string;
  ic_pw : string;
  ic_cutoff : string;
  ic_mark_as_read : bool
}.

Definition read_imap (cfg : config) : option imap_cfg :=
  host ← cfg_get cfg "imap" "server" "imap.gmail.com";
  user ← cfg_get cfg "imap" "username" "";
  pw ← cfg_get cfg "imap" "password" "";
  folder ← cfg_get cfg "imap" "folder" "INBOX";
  use_ssl ← cfg_getboolean cfg "imap" "ssl" true;
  cutoff ← cfg_get cfg "imap" "cutoff_date" "";
  Some {| ic_user := user; ic_pw := pw; ic_cutoff := PyStr.strip cutoff;
          ic_mark_as_read := get_bool cfg "imap" "mark_as_read" false |}.

(** The values read at lines 350 to 354, in this order: [model],
    [api_key], [base_url], [temperature], [enabled]. Each read can raise;
    model, base URL and temperature only go into the remote calls. *)
Definition read_ai (cfg : config) (mark_as_read : bool) : option loop_cfg :=
  model ← cfg_get cfg "ai" "model" "gpt-5-mini";
  api_key ← cfg_get cfg "ai" "api_key" "";
  base_url ← cfg_get cfg "ai" "base_url" "";
  temperature ← cfg_get cfg "ai" "temperature" "1";
  ai_enabled ← cfg_getboolean cfg "ai" "enabled" true;
  Some {| lc_ai_key := (let k := PyStr.strip api_key in
                        if PyStr.truthy k then Some k else None);
          lc_ai_enabled := ai_enabled;
          lc_mark_as_read := mark_as_read |}.

(** [check_mail] up to the loop: either it is over already ([Early]), or
    the loop starts on the sorted identifiers with the values read from the
    configuration and [max_seen_uid = start] ([Go]). *)
Inductive plan :=
| Early (r : cycle_result)
| Go (uids : list string) (lc : loop_cfg) (start : Z).

Definition plan_of (self : GmailPoller) (w : world) (err : string)
    (d : db) : plan :=
  match read_imap (cfg self) with
  | None => Early (raised d err)
  | Some ic =>
  if negb (PyStr.truthy (ic_user ic) && PyStr.truthy (ic_pw ic)) then
    Early (report self w d err "IMAP OFF")
  else if negb (w_connect w) then Early (raised d err)
  else
  let last_uid := get_metadata "last_uid" "0" d in
  match query_of last_uid (ic_cutoff ic) with
  | None => Early (raised d err)
  | Some query =>
  match w_search w query with
  | SearchRaise => Early (raised d err)
  | SearchReply typ tokens =>
  if negb (String.eqb typ "OK") then
    Early (logout_report self w d err "IMAP ERR")
  else
  let uids := filter (λ u, PyStr.truthy u = true) tokens in
  match uids with
  | [] => Early (logout_report self w d err "IMAP OK (no new)")
  | _ =>
  match sorted_by_int uids with
  | None => Early (raised d err)
  | Some uids =>
  match read_ai (cfg self) (ic_mark_as_read ic) with
  | None => Early (raised d err)
  | Some lc =>
  match int_or_0 last_uid with
  | None => Early (raised d err)
  | Some start => Go uids lc start
  end end end end end end end.

(** The loop of one cycle, from its initial local variables. *)
Definition run_loop (self : GmailPoller) (w : world) (err : string) (d : db)
    (uids : list string) (lc : loop_cfg) (start : Z) : loop_state * flow :=
  loop (cfg self) lc (w_ai w) (w_iter w) 0 uids
    {| ls_db := d; ls_err := err; max_seen_uid := start;
       last_ai_mode := None; new_count := 0; dropped := 0 |}.

(** After the loop: the cursor is saved (line 433), then [M.logout()]
    (line 434), then the summary goes to the callback (lines 435 and
    436). *)
Definition check_mail (self : GmailPoller) (w : world) (err : string)
    (d : db) : cycle_result :=
  match plan_of self w err d with
  | Early r => r
  | Go uids lc start =>
      match run_loop self w err d uids lc start with
      | (st, Raise) => raised (ls_db st) (ls_err st)
      | (st, Next) =>
          let d := save_metadata "last_uid" (PyStr.str (max_seen_uid st))
                                 (ls_db st) in
          if negb (w_logout w) then raised d (ls_err st)
          else
            match last_ai_mode st with
            | Some mode =>
                if status_callback self && PyStr.truthy mode
                then {| res_db := d; res_err := ls_err st;
                        res_status :=
                          Some (status_line mode (new_count st) (dropped st));
                        res_raised := negb (w_callback w) |}
                else returned d (ls_err st) None
            | None => returned d (ls_err st) None
            end
      end
  end.

(* ===================================================================== *)
(** * The running application *)
(* ===================================================================== *)

(** The state shared by the poller thread and the window: the database file
    and the global [LAST_AI_ERROR]. *)
Record app := {
  app_db : db;
  app_err : string
}.

(** What happens to that state, one event at a time: a polling cycle (from
    [GmailPoller.run] or from [poll_now]), and the commands of the window.
    A sequence of events is a run in which no two of them overlap in
    time. *)
Inductive event :=
| Poll (self : GmailPoller) (w : world)
| RefreshUi (retention_hours : Z) (now_cutoff now_archive : timestamp)
| Toggle (task_id : Z) (done : bool) (now : timestamp)
| DeleteTask (task_id : Z)
| ClearCompleted (now : timestamp)
| AddManual (task_text subject snippet : string) (now : timestamp)
| OnClose (geometry : string).

Definition step (a : app) (e : event) : app :=
  match e with
  | Poll self w =>
      let r := check_mail self w (app_err a) (app_db a) in
      {| app_db := res_db r; app_err := res_err r |}
  | RefreshUi h n1 n2 =>
      {| app_db := (list_active_tasks h true n1 n2 (app_db a)).1;
         app_err := app_err a |}
  | Toggle i done now =>
      {| app_db := mark_task_completed i done now (app_db a);
         app_err := app_err a |}
  | DeleteTask i =>
      {| app_db := delete_task i (app_db a); app_err := app_err a |}
  | ClearCompleted now =>
      {| app_db := (archive_all_completed_now now (app_db a)).1;
         app_err := app_err a |}
  | AddManual text subj snip now =>
      {| app_db := (add_task text subj snip None now (app_db a)).1;
         app_err := app_err a |}
  | OnClose g =>
      {| app_db := save_metadata "window_geometry" g (app_db a);
         app_err := app_err a |}
  end.

Definition run (es : list event) (a : app) : app := foldl step a es.

(** The application right after start-up. *)
Definition startup : app := {| app_db := ensure_db; app_err := "" |}.

(** ** Two cycles at once

    [GmailPoller.run] polls in a thread of its own and [poll_now] starts a
    further thread for each manual poll; the two share the database file
    and no lock. [add_task] is three statements on that file, each with a
    connection and a commit of its own: the test of line 90, the INSERT of
    lines 93 to 96 and the mark of lines 97 and 98. [add_task_call] is a
    call with the statement it is at, [add_task_step] runs that
    statement. *)
Inductive add_task_pc :=
| AtTest
| AtInsert
| AtMark
| AtReturn (created : bool).

Record add_task_call := {
  call_task_text : string;
  call_subject : string;
  call_snippet : string;
  call_email_uid : option string;
  call_now : timestamp;
  call_pc : add_task_pc
}.

Definition call_at (pc : add_task_pc) (c : add_task_call) : add_task_call :=
  {| call_task_text := call_task_text c; call_subject := call_subject c;
     call_snippet := call_snippet c; call_email_uid := call_email_uid c;
     call_now := call_now c; call_pc := pc |}.

Definition add_task_step (c : add_task_call) (d : db) : add_task_call * db :=
  match call_pc c with
  | AtTest =>
      if uid_truthy (call_email_uid c)
         && is_uid_processed (uid_str (call_email_uid c)) d
      then (call_at (AtReturn false) c, d)
      else (call_at AtInsert c, d)
  | AtInsert =>
      (call_at AtMark c,
       insert_task (call_task_text c) (call_subject c) (call_snippet c)
                   (call_email_uid c) (call_now c) d)
  | AtMark =>
      (call_at (AtReturn true) c,
       if uid_truthy (call_email_uid c)
       then mark_uid_processed (uid_str (call_email_uid c)) d else d)
  | AtReturn _ => (c, d)
  end.

(** Two calls under a schedule: at [true] the first call runs its next
    statement, at [false] the second. *)
Fixpoint interleave (schedule : list bool) (a b : add_task_call) (d : db)
  : add_task_call * add_task_call * db :=
  match schedule with
  | [] => (a, b, d)
  | true :: schedule =>
      let '(a, d) := add_task_step a d in interleave schedule a b d
  | false :: schedule =>
      let '(b, d) := add_task_step b d in interleave schedule a b d
  end.

(* ===================================================================== *)
(** * Sample inputs *)
(* ===================================================================== *)

Definition nl : string := String (ascii_of_N 10) "".

Definition cfg_plain : config :=
  list_to_map [(("imap", "username"), Value "me@example.org");
               (("imap", "password"), Value "secret");
               (("ai", "enabled"), Value "false");
               (("ai", "classify_before_add"), Value "false")].

Definition poller_plain : GmailPoller :=
  {| cfg := cfg_plain; status_callback := true |}.

Definition no_ai : ai_env := {| sdk_importable := false; env_api_key := "" |}.

Definition mail (body : string) : message :=
  {| msg_subject := "Subject"; msg_from_addr := "bob@example.org";
     msg_received := Some "2024-01-01 10:00"; msg_body := body |}.

Definition iter_ok (body : string) : iter_world :=
  {| w_fetch := FetchOk (mail body); w_classify := RemoteRaise "";
     w_summary := RemoteRaise ""; w_clock := 1000 |}.

Definition world_A : world :=
  {| w_ai := no_ai; w_connect := true;
     w_search := λ _, SearchReply "OK" ["7"; "5"];
     w_iter := λ _, iter_ok ("Hello   there" +:+ nl +:+ "bye");
     w_logout := true; w_callback := true |}.




(* ===================================================================== *)
(** * The vocabulary of the properties *)
(* ===================================================================== *)

(** The three properties asked of a summary. *)
Definition tidy (max_len : Z) (r : string) : Prop :=
  (Z.of_nat (String.length r) ≤ max_len)
  ∧ (ascii_of_N 10 ∉ PyStr.chars r)
  ∧ ∀ c, last (PyStr.chars r) = Some c → PyStr.isspace c = false.

(** The remote service is configured and available: the SDK was imported
    and a key is at hand. *)
Definition remote_configured (api_key : option string) (env : ai_env) : Prop :=
  sdk_importable env = true
  ∧ PyStr.truthy (effective_key api_key env) = true.

(** The remote call returned a text: the [try] block reached its
    [return]. *)
Definition call_returned (reply : remote_reply) : Prop :=
  ∃ content, reply = RemoteContent (Some content).

(** What [llm_summary] keeps of the text the remote service sent. *)
Definition cleaned (content : string) (max_len : Z) : string :=
  PyStr.strip
    (PyStr.slice_to (PyStr.re_trim_nonword (PyStr.strip content)) max_len).

(** The remote call returned a text and nothing is left of it. *)
Definition empty_result (reply : remote_reply) (max_len : Z) : Prop :=
  ∃ content, reply = RemoteContent (Some content) ∧ cleaned content max_len = "".



(** What never changes in a record once it is created. *)
Definition core (t : task) : Z * option string * string * string * string * timestamp :=
  (tid t, email_uid t, subject t, snippet t, task_text t, created_at t).

(** The records whose [sourceMessageId] is [m]. *)
Definition records_of (m : string) (d : db) : list task :=
  filter (λ t, email_uid t = Some m) (tasks d).

(** The message identifiers that have a record, one entry per record. *)
Definition uids_of (d : db) : list string := omap email_uid (tasks d).

(** Every record made from a message has its identifier in [processed_uids],
    and no two records are made from the same message. *)
Definition store_ok (d : db) : Prop :=
  (∀ t m, t ∈ tasks d → email_uid t = Some m → m ∈ processed_uids d)
  ∧ NoDup (uids_of d).

(** The persisted cursor, read the way [check_mail] reads it. *)
Definition cursor (d : db) : option Z :=
  int_or_0 (get_metadata "last_uid" "0" d).

(** What one pass of the loop over [u] can do to the database: nothing, mark
    [u] processed (a drop), or add a record for [u]; the last two only when
    [u] was not processed yet. *)
Inductive pass_db (u : string) (d : db) : db → Prop :=
| pass_same : pass_db u d d
| pass_drop : u ∉ processed_uids d → pass_db u d (mark_uid_processed u d)
| pass_add text subj snip now :
    u ∉ processed_uids d →
    pass_db u d (add_task text subj snip (Some u) now d).1.

(** The cycle gets as far as the search, which it sends as [query]. *)
Definition reaches_search (self : GmailPoller) (w : world) (d : db)
    (query : string) : Prop :=
  ∃ ic,
    read_imap (cfg self) = Some ic
    ∧ PyStr.truthy (ic_user ic) = true
    ∧ PyStr.truthy (ic_pw ic) = true
    ∧ w_connect w = true
    ∧ query_of (get_metadata "last_uid" "0" d) (ic_cutoff ic) = Some query.

(** The search for the current cursor (and date filter) succeeds and lists
    no message identifier. *)
Definition no_new_ids (self : GmailPoller) (w : world) (d : db) : Prop :=
  ∃ query tokens,
    reaches_search self w d query
    ∧ w_search w query = SearchReply "OK" tokens
    ∧ filter (λ u, PyStr.truthy u = true) tokens = [].

(** A mailbox with nothing new. *)
Definition world_none : world :=
  {| w_ai := no_ai; w_connect := true;
     w_search := λ _, SearchReply "OK" [];
     w_iter := λ _, iter_ok "";
     w_logout := true; w_callback := true |}.


(** A run in which message 5 is ingested, its record deleted, and the
    mailbox delivers 5 and 7 again. *)
Definition world_5 : world :=
  {| w_ai := no_ai; w_connect := true;
     w_search := λ _, SearchReply "OK" ["5"];
     w_iter := λ _, iter_ok "Please reply";
     w_logout := true; w_callback := true |}.

Definition task_5 : task :=
  {| tid := 1; email_uid := Some "5"; subject := "Subject";
     snippet := "Please reply";
     task_text := "From: bob@example.org | Received: 2024-01-01 10:00 | Summary: Please reply";
     created_at := 1000; completed_at := None; is_completed := 0;
     archived_at := None |}.

(** The loop configuration [check_mail] derives from [cfg_plain]. *)
Definition lc_off : loop_cfg :=
  {| lc_ai_key := None; lc_ai_enabled := false; lc_mark_as_read := false |}.





(** Between two readings of the clock no completed record falls due: one
    that is within the retention window at [now1] still is at [now2]. This
    is what "in immediate succession" asks of the clock; it holds in
    particular when both calls read the same instant. *)
Definition nothing_falls_due (retention_hours : Z) (now1 now2 : timestamp)
    (d : db) : Prop :=
  ∀ t c, t ∈ tasks d → completed_at t = Some c →
         now1 - hours retention_hours ≤ c → now2 - hours retention_hours ≤ c.

(** Two notes, the first completed at instant 200. *)
Definition db_done : db :=
  mark_task_completed 1 true 200
    (add_task "second" "s" "" None 101
       (add_task "first" "s" "" (Some "5") 100 ensure_db).1).1.





(** The completion columns of a row agree: [is_completed] is 0 with no
    completion time, or 1 with one. *)
Definition flag_ok (t : task) : Prop :=
  (is_completed t = 0 ∧ completed_at t = None)
  ∨ (is_completed t = 1 ∧ is_Some (completed_at t)).

(** What an UPDATE of the program does to a row: it keeps what [core]
    holds, never clears [archived_at], and keeps the completion columns in
    agreement. *)
Definition tame (f : task → task) : Prop :=
  ∀ t, core (f t) = core t
       ∧ (archived_at t ≠ None → archived_at (f t) ≠ None)
       ∧ (flag_ok t → flag_ok (f t)).

(** How the table [tasks] and its counter change in one statement: not at
    all, by one INSERT of a fresh open row, by an UPDATE, or by a DELETE. *)
Inductive table_step (d d' : db) : Prop :=
| ts_same :
    tasks d' = tasks d → tasks_seq d' = tasks_seq d → table_step d d'
| ts_insert row :
    tasks d' = tasks d ++ [row] → tasks_seq d' = tasks_seq d + 1 →
    tid row = tasks_seq d + 1 → completed_at row = None →
    is_completed row = 0 → archived_at row = None → table_step d d'
| ts_update f :
    tame f → tasks d' = f <$> tasks d → tasks_seq d' = tasks_seq d →
    table_step d d'
| ts_delete (P : task → Prop) (dec : ∀ t, Decision (P t)) :
    tasks d' = filter P (tasks d) → tasks_seq d' = tasks_seq d →
    table_step d d'.

(** Row ids are pairwise distinct and none exceeds the counter. *)
Definition ids_ok (d : db) : Prop :=
  (∀ t, t ∈ tasks d → tid t ≤ tasks_seq d) ∧ NoDup (tid <$> tasks d).

(** The rows of a listing, and the columns [id] and [is_completed] of a
    row. *)
Definition rows_of (l : listing) : list row :=
  match l with
  | Rows rows => rows
  | RowsCounts rows _ _ => rows
  end.
Definition row_id (r : row) : Z := r.1.1.1.1.
Definition row_done (r : row) : Z := r.1.1.2.

(** Message 5 ingested, its note completed, then "Clear Completed". *)
Definition events_archive_5 : list event :=
  [Poll poller_plain world_5; Toggle 1 true 200; ClearCompleted 300].

Definition task_5_archived : task :=
  {| tid := 1; email_uid := Some "5"; subject := "Subject";
     snippet := "Please reply";
     task_text := "From: bob@example.org | Received: 2024-01-01 10:00 | Summary: Please reply";
     created_at := 1000; completed_at := Some 200; is_completed := 1;
     archived_at := Some 300 |}.

(** [u] sorts no later than [v]: both are integers, and [int(u) <= int(v)]. *)
Definition int_le (u v : string) : Prop :=
  ∃ m n, PyStr.int u = Some m ∧ PyStr.int v = Some n ∧ m ≤ n.

(** The same on the pairs [(int(u), u)] the sort works on. *)
Definition keyed_le (x y : Z * string) : Prop :=
  x.1 ≤ y.1 ∧ PyStr.int x.2 = Some x.1 ∧ PyStr.int y.2 = Some y.1.

(** A mailbox whose search reply holds a token that is no number. *)
Definition world_bad_id : world :=
  {| w_ai := no_ai; w_connect := true;
     w_search := λ _, SearchReply "OK" ["5"; "x7"];
     w_iter := λ _, iter_ok "Please reply";
     w_logout := true; w_callback := true |}.

(** A mailbox with messages 5 and 7 whose connection breaks at the second
    fetch. *)
Definition world_7_raises : world :=
  {| w_ai := no_ai; w_connect := true;
     w_search := λ _, SearchReply "OK" ["5"; "7"];
     w_iter := λ k,
       match k with
       | O => iter_ok "Please reply"
       | _ => {| w_fetch := FetchRaise; w_classify := RemoteRaise "";
                 w_summary := RemoteRaise ""; w_clock := 1000 |}
       end;
     w_logout := true; w_callback := true |}.

(** A server that answers the search with NO. *)
Definition world_search_no : world :=
  {| w_ai := no_ai; w_connect := true;
     w_search := λ _, SearchReply "NO" [];
     w_iter := λ _, iter_ok "";
     w_logout := true; w_callback := true |}.

Definition poller_no_creds : GmailPoller :=
  {| cfg := list_to_map [(("imap", "username"), Value "me@example.org")];
     status_callback := true |}.

(** A line of the body that is neither blank nor quoted. *)
Definition content_line (line : string) : Prop :=
  PyStr.truthy (PyStr.strip line) = true
  ∧ PyStr.startswith (PyStr.strip line) ">" = false.

(** [r] is the heuristic summary of [text]: the first line of the body
    that is neither blank nor quoted -- stripped, its runs of whitespace
    collapsed to one space, cut to [max_len] characters and right-stripped;
    if there is no such line, the whole body -- stripped, each line feed
    replaced by a space, cut and right-stripped. *)
Definition is_heuristic_summary (text : string) (max_len : Z) (r : string)
  : Prop :=
  (∃ before line after,
     PyStr.splitlines text = before ++ line :: after
     ∧ Forall (λ l, ¬ content_line l) before
     ∧ content_line line
     ∧ r = PyStr.rstrip
             (PyStr.slice_to (PyStr.re_sub_ws (PyStr.strip line)) max_len))
  ∨ (Forall (λ l, ¬ content_line l) (PyStr.splitlines text)
     ∧ r = PyStr.rstrip
             (PyStr.slice_to (PyStr.replace_nl (PyStr.strip text)) max_len)).

(** A call of [add_task] that is about to start. *)
Definition call_of (task_text subject snippet : string)
    (email_uid : option string) (now : timestamp) : add_task_call :=
  {| call_task_text := task_text; call_subject := subject;
     call_snippet := snippet; call_email_uid := email_uid;
     call_now := now; call_pc := AtTest |}.

(** A key is set and the SDK is there. *)
Definition ai_ready : ai_env :=
  {| sdk_importable := true; env_api_key := "sk-test" |}.

Definition cr : string := String (ascii_of_N 13) "".

(** A mailbox with messages 5 and 7 whose connection breaks at logout. *)
Definition world_logout_raises : world :=
  {| w_ai := no_ai; w_connect := true;
     w_search := λ _, SearchReply "OK" ["7"; "5"];
     w_iter := λ _, iter_ok "Please reply";
     w_logout := false; w_callback := true |}.

(** A password with a lone per cent sign, and a [classify_before_add] that
    cannot be read either. *)
Definition cfg_per_cent : config :=
  list_to_map [(("imap", "username"), Value "me@example.org");
               (("imap", "password"), Unreadable);
               (("ai", "classify_before_add"), Unreadable)].

(** The database after a first cycle over messages 5 and 7. *)
Definition db_A : db := res_db (check_mail poller_plain world_A "" ensure_db).


(* ===================================================================== *)
(** * Facts about the string helpers *)
(* ===================================================================== *)

Section strings.
Implicit Types (l : list ascii) (p : ascii → bool) (s : string).

Lemma chars_str_of l : PyStr.chars (PyStr.str_of l) = l.
Proof. apply list_ascii_of_string_of_list_ascii. Qed.

Lemma length_chars s : length (PyStr.chars s) = String.length s.
Proof. induction s; simpl; congruence. Qed.

Lemma drop_while_suffix {A} (q : A → bool) (l : list A) :
  PyStr.drop_while q l `suffix_of` l.
Proof.
  induction l as [|x l IH]; simpl; [done|].
  destruct (q x); [by apply suffix_cons_r | done].
Qed.

Lemma drop_while_head {A} (q : A → bool) (l : list A) x :
  head (PyStr.drop_while q l) = Some x → q x = false.
Proof.
  induction l as [|y l IH]; simpl; [done|].
  destruct (q y) eqn:E; [done|]. simpl. by intros [= <-].
Qed.

Lemma rstrip_by_prefix p l : PyStr.rstrip_by p l `prefix_of` l.
Proof.
  unfold PyStr.rstrip_by.
  destruct (drop_while_suffix p (reverse l)) as [k Hk].
  exists (reverse k). apply (f_equal reverse) in Hk.
  by rewrite reverse_involutive, reverse_app in Hk.
Qed.

Lemma rstrip_by_last p l x :
  last (PyStr.rstrip_by p l) = Some x → p x = false.
Proof.
  unfold PyStr.rstrip_by. rewrite last_reverse.
  apply drop_while_head.
Qed.

Lemma collapse_ws_elem b l c :
  c ∈ PyStr.collapse_ws b l → c = " "%char ∨ PyStr.isspace c = false.
Proof.
  revert b. induction l as [|x l IH]; intros b; simpl; [by intros ?%elem_of_nil|].
  destruct (PyStr.isspace x) eqn:E.
  - destruct b; [by apply IH|].
    intros [->|?]%elem_of_cons; [by left | by eapply IH].
  - intros [->|?]%elem_of_cons; [by right | by eapply IH].
Qed.

Lemma replace_nl_elem s :
  ascii_of_N 10 ∉ PyStr.chars (PyStr.replace_nl s).
Proof.
  unfold PyStr.replace_nl. rewrite chars_str_of.
  intros (c & Hc & _)%list_elem_of_fmap.
  destruct (PyStr.code c =? 10)%N eqn:E; [done|].
  apply N.eqb_neq in E. apply E. subst c. unfold PyStr.code.
  by rewrite N_ascii_embedding.
Qed.

(** What cutting and right-stripping does to any string. *)
Lemma rstrip_slice_length s (n : Z) :
  0 ≤ n → Z.of_nat (String.length (PyStr.rstrip (PyStr.slice_to s n))) ≤ n.
Proof.
  intros Hn. unfold PyStr.rstrip, PyStr.slice_to. simpl.
  destruct (Z.leb_spec 0 n); [|lia].
  rewrite <- length_chars, !chars_str_of.
  pose proof (prefix_length _ _
    (rstrip_by_prefix PyStr.isspace (take (Z.to_nat n) (PyStr.chars s)))) as H1.
  rewrite length_take in H1. lia.
Qed.

Lemma rstrip_slice_elem s (n : Z) c :
  c ∈ PyStr.chars (PyStr.rstrip (PyStr.slice_to s n)) → c ∈ PyStr.chars s.
Proof.
  unfold PyStr.rstrip, PyStr.slice_to. simpl. rewrite chars_str_of.
  intros H. eapply elem_of_prefix in H; [|apply rstrip_by_prefix].
  destruct (0 <=? n); rewrite chars_str_of in H;
    eapply subseteq_take; eauto.
Qed.

Lemma rstrip_last s c :
  last (PyStr.chars (PyStr.rstrip s)) = Some c → PyStr.isspace c = false.
Proof. unfold PyStr.rstrip. rewrite chars_str_of. apply rstrip_by_last. Qed.

End strings.

(* ===================================================================== *)
(** * The heuristic summary *)
(* ===================================================================== *)

Lemma heuristic_summary_loop_tidy lines max_len r :
  0 ≤ max_len →
  heuristic_summary_loop lines max_len = Some r → tidy max_len r.
Proof.
  intros Hn. induction lines as [|line rest IH]; simpl; [done|].
  destruct (_ && _); [|exact IH].
  intros [= <-]. split_and!.
  - by apply rstrip_slice_length.
  - intros H%rstrip_slice_elem. unfold PyStr.re_sub_ws in H.
    rewrite chars_str_of in H. by apply collapse_ws_elem in H as [?|?].
  - apply rstrip_last.
Qed.

Lemma heuristic_summary_loop_split lines max_len :
  match heuristic_summary_loop lines max_len with
  | Some r =>
      ∃ before line after,
        lines = before ++ line :: after
        ∧ Forall (λ l, ¬ content_line l) before
        ∧ content_line line
        ∧ r = PyStr.rstrip
                (PyStr.slice_to (PyStr.re_sub_ws (PyStr.strip line)) max_len)
  | None => Forall (λ l, ¬ content_line l) lines
  end.
Proof.
  induction lines as [|line rest IH]; cbn [heuristic_summary_loop];
    [by constructor|].
  destruct (PyStr.truthy (PyStr.strip line)) eqn:Ht;
    [destruct (PyStr.startswith (PyStr.strip line) ">") eqn:Hq|]; cbn [andb negb].
  2: { exists [], line, rest. by split_and!. }
  all: assert (¬ content_line line) as Hn
         by (unfold content_line; intros [? ?]; congruence).
  all: destruct (heuristic_summary_loop rest max_len) as [r|].
  all: try (destruct IH as (before & line0 & after & -> & Hb & Hc & ->);
            exists (line :: before), line0, after; by split_and!; [|constructor|..]).
  all: by constructor.
Qed.

(** [heuristic_summary] computes the heuristic summary, and nothing else
    is one. *)
Lemma heuristic_summary_spec text max_len r :
  is_heuristic_summary text max_len r ↔ r = heuristic_summary text max_len.
Proof.
  unfold is_heuristic_summary, heuristic_summary.
  pose proof (heuristic_summary_loop_split (PyStr.splitlines text) max_len) as H.
  assert (∀ before line after,
            Forall (λ l, ¬ content_line l) before → content_line line →
            Forall (λ l, ¬ content_line l) (before ++ line :: after) → False)
    as Hno.
  { intros before line after _ Hc Hall. apply Forall_app in Hall as [_ Hall].
    apply Forall_cons in Hall as [Hall _]. by apply Hall. }
  assert (∀ b1 l1 a1 b2 l2 a2,
            b1 ++ l1 :: a1 = b2 ++ l2 :: a2 →
            Forall (λ l, ¬ content_line l) b1 → content_line l1 →
            Forall (λ l, ¬ content_line l) b2 → content_line l2 →
            l1 = l2) as Hsame.
  { induction b1 as [|x b1 IH]; intros l1 a1 [|y b2] l2 a2 E H1 C1 H2 C2;
      simplify_eq/=; [done| | |].
    - by apply Forall_cons in H2 as [? _].
    - by apply Forall_cons in H1 as [? _].
    - apply Forall_cons in H1 as [_ H1]. apply Forall_cons in H2 as [_ H2].
      eauto. }
  destruct (heuristic_summary_loop _ _) as [r0|].
  - destruct H as (b0 & l0 & a0 & E0 & Hb0 & Hc0 & ->). split.
    + intros [(b & l & a & E & Hb & Hc & ->)|[Hall _]].
      * rewrite E0 in E. by rewrite (Hsame _ _ _ _ _ _ E Hb0 Hc0 Hb Hc).
      * rewrite E0 in Hall. by destruct (Hno _ _ _ Hb0 Hc0 Hall).
    + intros ->. left. by exists b0, l0, a0.
  - split.
    + intros [(b & l & a & E & Hb & Hc & ->)|[_ ->]]; [|done].
      rewrite E in H. by destruct (Hno _ _ _ Hb Hc H).
    + intros ->. by right.
Qed.

(** C10. [heuristic_summary] is a total function, and for every text and
    every [max_len >= 0] its result has at most [max_len] characters,
    contains no line feed, and does not end in whitespace. *)
Theorem heuristic_summary_tidy (text : string) (max_len : Z) :
  0 ≤ max_len →
  ∃ r, heuristic_summary text max_len = r
     ∧ (Z.of_nat (String.length r) ≤ max_len)
     ∧ (ascii_of_N 10 ∉ PyStr.chars r)
     ∧ ∀ c, last (PyStr.chars r) = Some c → PyStr.isspace c = false.
Proof.
  intros Hn. eexists; split; [reflexivity|]. unfold heuristic_summary.
  destruct (heuristic_summary_loop _ _) as [r|] eqn:E.
  - by apply (heuristic_summary_loop_tidy _ _ _ Hn E).
  - split_and!.
    + by apply rstrip_slice_length.
    + intros H%rstrip_slice_elem. by apply replace_nl_elem in H.
    + apply rstrip_last.
Qed.

(** A case of the statement above. *)
Lemma heuristic_summary_tidy_witness :
  0 ≤ 7 ∧ ∃ r, heuristic_summary ("> old" +:+ nl +:+ "  Hello    world ") 7 = r
     ∧ (Z.of_nat (String.length r) ≤ 7)
     ∧ (ascii_of_N 10 ∉ PyStr.chars r)
     ∧ ∀ c, last (PyStr.chars r) = Some c → PyStr.isspace c = false.
Proof.
  split; [lia|].
  apply (heuristic_summary_tidy ("> old" +:+ nl +:+ "  Hello    world ") 7).
  lia.
Defined.

(* ===================================================================== *)
(** * The adapters *)
(* ===================================================================== *)

Section adapters.
Context (text subject : string) (api_key : option string) (env : ai_env).

(** Closes the propositional goals left once a mode string is known. *)
Ltac settle :=
  repeat (split || intro);
  repeat match goal with
         | H : _ ∧ _ |- _ => destruct H
         | H : ∃ _, _ |- _ => destruct H
         | H : _ ∨ _ |- _ => destruct H
         | H : ¬ _ |- _ => exfalso; apply H; clear H
         end;
  try discriminate; try congruence; eauto 6.

(** C6, as the code has it. [llm_summary] reports OFF exactly when the
    remote service is not configured or available, FALLBACK exactly when
    the call was attempted and raised, and ON exactly when the call
    returned a text -- also when nothing is left of that text. Whenever the
    service is not configured, the call raised, or nothing is left of the
    text, the sentence is the heuristic summary of the body, as
    [is_heuristic_summary] words it. *)
Theorem llm_summary_fallback_and_mode (max_len : Z) (reply : remote_reply)
    (err : string) :
  ∃ sentence mode err',
    llm_summary text subject api_key max_len env reply err
      = (sentence, mode, err')
    ∧ (mode = "ON" ↔ remote_configured api_key env ∧ call_returned reply)
    ∧ (mode = "OFF" ↔ ¬ remote_configured api_key env)
    ∧ (mode = "FALLBACK" ↔
         remote_configured api_key env ∧ ¬ call_returned reply)
    ∧ (¬ remote_configured api_key env ∨ ¬ call_returned reply
       ∨ empty_result reply max_len →
       is_heuristic_summary text max_len sentence).
Proof.
  assert (is_heuristic_summary text max_len (heuristic_summary text max_len))
    as Hh by by apply heuristic_summary_spec.
  unfold llm_summary, remote_configured, call_returned, empty_result, cleaned.
  destruct (sdk_importable env); simpl.
  2: { do 3 eexists; split; [reflexivity|].
       split_and!; [settle..|by intros _]. }
  destruct (PyStr.truthy (effective_key api_key env)); simpl.
  2: { do 3 eexists; split; [reflexivity|].
       split_and!; [settle..|by intros _]. }
  destruct reply as [e|[content|]].
  - do 3 eexists; split; [reflexivity|].
    split_and!; [settle..|by intros _].
  - do 3 eexists; split; [reflexivity|].
    split_and!; [settle..|].
    intros [[]|[[]|(c & [= <-] & ->)]]; eauto.
  - do 3 eexists; split; [reflexivity|].
    split_and!; [settle..|by intros _].
Qed.


End adapters.

(** C6 as stated fails for an empty remote result, which it counts among
    the failures: the service is configured, the call returns a text of
    which nothing is left, the sentence is the heuristic summary -- and the
    mode is ON, not FALLBACK. And the body "flattened to one line" is not
    what the heuristic summary is when no line qualifies: only line feeds
    are replaced, so the carriage return of a CR LF line end stays, and with
    it a line boundary. *)
Lemma empty_result_mode_counterexample :
  let r := llm_summary "Please reply" "Subject" None 140 ai_ready
             (RemoteContent (Some " ... ")) "" in
  let quoted := "> one" +:+ cr +:+ nl +:+ "> two" in
  remote_configured None ai_ready
  ∧ empty_result (RemoteContent (Some " ... ")) 140
  ∧ r.1.1 = heuristic_summary "Please reply" 140
  ∧ r.1.2 = "ON"
  ∧ r.1.2 ≠ "FALLBACK"
  ∧ heuristic_summary quoted 140 = "> one" +:+ cr +:+ " > two"
  ∧ length (PyStr.splitlines (heuristic_summary quoted 140)) = 2%nat.
Proof.
  split_and!; try (vm_compute; reflexivity).
  - by split.
  - by exists " ... ".
  - discriminate.
Qed.

(* ===================================================================== *)
(** * Integers and their decimal spelling *)
(* ===================================================================== *)

Section integers.

Lemma strip_by_none (p : ascii → bool) (l : list ascii) :
  Forall (λ c, p c = false) l →
  PyStr.rstrip_by p (PyStr.lstrip_by p l) = l.
Proof.
  intros Hl.
  assert (∀ l', Forall (λ c, p c = false) l' → PyStr.drop_while p l' = l') as Hd.
  { intros [|c l'] H; [done|]. apply Forall_cons in H as [H _]. simpl. by rewrite H. }
  unfold PyStr.rstrip_by, PyStr.lstrip_by. rewrite (Hd l Hl).
  rewrite Hd; [apply reverse_involutive|]. by apply Forall_reverse.
Qed.

Lemma digit_not_space (c : ascii) :
  PyStr.is_digit c = true →
  PyStr.int_space c = false ∧ Ascii.eqb c "+" = false
  ∧ Ascii.eqb c "-" = false ∧ Ascii.eqb c "_" = false.
Proof.
  destruct c as [[] [] [] [] [] [] [] []]; vm_compute; try discriminate; done.
Qed.

Lemma uint_digits (u : Decimal.uint) :
  Forall (λ c, PyStr.is_digit c = true) (PyStr.chars (NilEmpty.string_of_uint u)).
Proof. induction u; simpl; constructor; done. Qed.

Lemma uint_nonempty (u : Decimal.uint) :
  u ≠ Decimal.Nil → PyStr.chars (NilEmpty.string_of_uint u) ≠ [].
Proof. by destruct u. Qed.

Lemma int_digits_acc (u : Decimal.uint) (acc : positive) :
  PyStr.int_digits (Z.pos acc) true (PyStr.chars (NilEmpty.string_of_uint u))
  = Some (Z.pos (Pos.of_uint_acc u acc)).
Proof.
  revert acc. induction u; intros acc; [done|..];
    cbn [NilEmpty.string_of_uint PyStr.chars list_ascii_of_string
         PyStr.int_digits Pos.of_uint_acc];
    (match goal with
     | |- context [PyStr.is_digit ?c] =>
         replace (PyStr.is_digit c) with true by (by vm_compute)
     end);
    (match goal with
     | |- PyStr.int_digits ?a _ _ = Some (Z.pos (Pos.of_uint_acc _ ?q)) =>
         replace a with (Z.pos q) by (unfold PyStr.digit_value, PyStr.code;
                                       cbn [N_of_ascii N_of_digits]; lia)
     end); apply IHu.
Qed.

Lemma int_digits_uint (u : Decimal.uint) (b : bool) :
  u ≠ Decimal.Nil ∨ b = true →
  PyStr.int_digits 0 b (PyStr.chars (NilEmpty.string_of_uint u))
  = Some (Z.of_N (Pos.of_uint u)).
Proof.
  revert b. induction u; intros b Hb.
  - by destruct Hb as [?| ->].
  - cbn. apply (IHu true). by right.
  - apply (int_digits_acc u 1).
  - apply (int_digits_acc u 2).
  - apply (int_digits_acc u 3).
  - apply (int_digits_acc u 4).
  - apply (int_digits_acc u 5).
  - apply (int_digits_acc u 6).
  - apply (int_digits_acc u 7).
  - apply (int_digits_acc u 8).
  - apply (int_digits_acc u 9).
Qed.

(** [int] on the digits that [str] prints, and on the same with a minus
    sign before. *)
Lemma int_of_uint (u : Decimal.uint) :
  u ≠ Decimal.Nil →
  PyStr.int (NilEmpty.string_of_uint u) = Some (Z.of_N (Pos.of_uint u))
  ∧ PyStr.int (String "-" (NilEmpty.string_of_uint u))
    = Some (- Z.of_N (Pos.of_uint u)).
Proof.
  intros Hu. pose proof (uint_digits u) as Hd.
  pose proof (int_digits_uint u false (or_introl Hu)) as Hi.
  assert (Forall (λ c, PyStr.int_space c = false)
            (PyStr.chars (NilEmpty.string_of_uint u))) as Hs.
  { eapply Forall_impl; [exact Hd|]. intros c Hc. by apply digit_not_space. }
  unfold PyStr.int. split.
  - rewrite (strip_by_none _ _ Hs).
    destruct (PyStr.chars (NilEmpty.string_of_uint u)) as [|c l] eqn:E.
    { by apply uint_nonempty in E. }
    apply Forall_cons in Hd as [Hc _].
    apply digit_not_space in Hc as (_ & -> & -> & _). done.
  - change (PyStr.chars (String "-" ?s)) with ("-"%char :: PyStr.chars s).
    rewrite strip_by_none by (by constructor).
    cbn [Ascii.eqb Bool.eqb]. cbn. by rewrite Hi.
Qed.

Lemma str_cases (z : Z) :
  ∃ u, u ≠ Decimal.Nil
       ∧ ((PyStr.str z = NilEmpty.string_of_uint u ∧ z = Z.of_N (Pos.of_uint u))
          ∨ (PyStr.str z = String "-" (NilEmpty.string_of_uint u)
             ∧ z = - Z.of_N (Pos.of_uint u))).
Proof.
  assert (∀ u, u ≠ Decimal.Nil →
            NilZero.string_of_uint u = NilEmpty.string_of_uint u) as Hne.
  { by intros []. }
  destruct z as [|p|p].
  - exists (Decimal.D0 Decimal.Nil). split; [done|]. by left.
  - exists (Pos.to_uint p).
    assert (Pos.to_uint p ≠ Decimal.Nil) as Hp
      by apply DecimalPos.Unsigned.to_uint_nonnil.
    split; [done|]. left. unfold PyStr.str. cbn.
    rewrite (Hne _ Hp), DecimalPos.Unsigned.of_to. done.
  - exists (Pos.to_uint p).
    assert (Pos.to_uint p ≠ Decimal.Nil) as Hp
      by apply DecimalPos.Unsigned.to_uint_nonnil.
    split; [done|]. right. unfold PyStr.str. cbn.
    rewrite (Hne _ Hp), DecimalPos.Unsigned.of_to. done.
Qed.

Lemma truthy_str (z : Z) : PyStr.truthy (PyStr.str z) = true.
Proof.
  destruct (str_cases z) as (u & Hu & [[-> _]|[-> _]]); [|done].
  by destruct u.
Qed.

Lemma int_str (z : Z) : PyStr.int (PyStr.str z) = Some z.
Proof.
  destruct (str_cases z) as (u & Hu & [[-> ->]|[-> ->]]);
    by apply int_of_uint.
Qed.

Lemma int_truthy (u : string) (n : Z) : PyStr.int u = Some n → PyStr.truthy u = true.
Proof. by destruct u. Qed.

Lemma int_or_0_str (z : Z) : int_or_0 (PyStr.str z) = Some z.
Proof. unfold int_or_0. by rewrite truthy_str, int_str. Qed.

End integers.

(* ===================================================================== *)
(** * The sort of the identifiers *)
(* ===================================================================== *)

Section sorting.

Lemma insert_by_key_perm x l : insert_by_key x l ≡ₚ x :: l.
Proof.
  induction l as [|y l IH]; simpl; [done|].
  destruct (x.1 <=? y.1); [done|]. rewrite IH. apply Permutation_swap.
Qed.

Lemma foldr_insert_perm l : foldr insert_by_key [] l ≡ₚ l.
Proof.
  induction l as [|x l IH]; simpl; [done|].
  by rewrite insert_by_key_perm, IH.
Qed.

Lemma int_keys_snd uids keys : int_keys uids = Some keys → keys.*2 = uids.
Proof.
  unfold int_keys. intros H%mapM_Some.
  induction H as [|u y l k Hu HF IH]; simpl; [done|].
  destruct (PyStr.int u); by simplify_eq/=.
Qed.

Lemma sorted_by_int_perm uids l : sorted_by_int uids = Some l → l ≡ₚ uids.
Proof.
  unfold sorted_by_int.
  destruct (int_keys uids) as [keys|] eqn:E; simpl; [|done].
  intros [= <-]. rewrite foldr_insert_perm. by rewrite (int_keys_snd _ _ E).
Qed.

End sorting.

(* ===================================================================== *)
(** * What one pass does to the database *)
(* ===================================================================== *)

Section store.
Implicit Types (d : db) (u m : string) (t : task).

Lemma is_uid_processed_true u d :
  is_uid_processed u d = true ↔ u ∈ processed_uids d.
Proof. unfold is_uid_processed. apply bool_decide_eq_true. Qed.

Lemma is_uid_processed_false u d :
  is_uid_processed u d = false ↔ u ∉ processed_uids d.
Proof. unfold is_uid_processed. apply bool_decide_eq_false. Qed.

Lemma add_task_fresh text subj snip now u d :
  u ∉ processed_uids d →
  add_task text subj snip (Some u) now d =
    (if PyStr.truthy u
     then mark_uid_processed u (insert_task text subj snip (Some u) now d)
     else insert_task text subj snip (Some u) now d, true).
Proof.
  intros H%is_uid_processed_false. unfold add_task. simpl. rewrite H.
  by rewrite andb_false_r.
Qed.

Lemma add_task_known text subj snip now u d :
  PyStr.truthy u = true → u ∈ processed_uids d →
  add_task text subj snip (Some u) now d = (d, false).
Proof.
  intros Hu H%is_uid_processed_true. unfold add_task. simpl.
  by rewrite Hu, H.
Qed.

Lemma pass_db_metadata u d d' : pass_db u d d' → metadata d' = metadata d.
Proof.
  destruct 1 as [| |text subj snip now H]; [done..|].
  rewrite add_task_fresh by done. by destruct (PyStr.truthy u).
Qed.

Lemma pass_db_processed u d d' :
  pass_db u d d' →
  processed_uids d ⊆ processed_uids d'
  ∧ processed_uids d' ⊆ {[u]} ∪ processed_uids d.
Proof.
  destruct 1 as [| |text subj snip now H]; simpl; [set_solver..|].
  rewrite add_task_fresh by done. destruct (PyStr.truthy u); simpl; set_solver.
Qed.

Lemma uids_of_insert text subj snip o now d :
  uids_of (insert_task text subj snip o now d) = uids_of d ++ option_list o.
Proof. unfold uids_of. simpl. rewrite omap_app. by destruct o. Qed.

Lemma store_ok_insert text subj snip now u d :
  store_ok d → u ∉ processed_uids d →
  store_ok (mark_uid_processed u (insert_task text subj snip (Some u) now d)).
Proof.
  intros [Hm Hn] Hu. split.
  - intros t m [Ht|Ht]%elem_of_app E; simpl.
    + apply elem_of_union_r. eauto.
    + apply list_elem_of_singleton in Ht as ->. simpl in E.
      injection E as <-. set_solver.
  - unfold uids_of in *. simpl. rewrite omap_app. simpl.
    apply NoDup_app. split_and!; [done| |apply NoDup_singleton].
    intros m (t & Ht & E)%list_elem_of_omap ->%list_elem_of_singleton.
    eauto.
Qed.

Lemma store_ok_mark u d : store_ok d → store_ok (mark_uid_processed u d).
Proof.
  intros [Hm Hn]. split; [|done].
  intros t m Ht E. simpl. apply elem_of_union_r. eauto.
Qed.

Lemma pass_db_store_ok u d d' :
  PyStr.truthy u = true → store_ok d → pass_db u d d' → store_ok d'.
Proof.
  intros Hu Hd [| |text subj snip now H]; [done|by apply store_ok_mark|].
  rewrite add_task_fresh, Hu by done. by apply store_ok_insert.
Qed.

Lemma pass_db_records m u d d' :
  m ∈ processed_uids d → pass_db u d d' → records_of m d' = records_of m d.
Proof.
  intros Hm [| |text subj snip now H]; [done..|].
  rewrite add_task_fresh by done.
  assert (records_of m (insert_task text subj snip (Some u) now d)
          = records_of m d) as E.
  { unfold records_of. simpl. rewrite filter_app.
    rewrite (filter_cons_False _ _ []), filter_nil, app_nil_r; [done|].
    simpl. intros [= ->]. done. }
  by destruct (PyStr.truthy u).
Qed.

End store.

Section passes.
Context (cfg : config) (lc : loop_cfg) (ai : ai_env).
Implicit Types (st : loop_state) (u : string) (iw : iter_world).

Lemma bump_same u st :
  let st' := (bump u st).1 in
  ls_db st' = ls_db st ∧ ls_err st' = ls_err st
  ∧ last_ai_mode st' = last_ai_mode st
  ∧ new_count st' = new_count st ∧ dropped st' = dropped st.
Proof. unfold bump. by destruct (PyStr.int u). Qed.

Lemma bump_max u st :
  let st' := (bump u st).1 in
  max_seen_uid st ≤ max_seen_uid st'
  ∧ (max_seen_uid st' = max_seen_uid st
     ∨ PyStr.int u = Some (max_seen_uid st')).
Proof.
  unfold bump. destruct (PyStr.int u) as [n|]; simpl; [|lia].
  split; [lia|]. destruct (Z.max_spec (max_seen_uid st) n) as [[? ->]|[? ->]];
    auto.
Qed.

(** Everything the proofs below need to know about one pass. *)
Lemma loop_body_cases iw u st :
  let st' := (loop_body cfg lc ai iw u st).1 in
  new_count st' = new_count st
  ∧ max_seen_uid st ≤ max_seen_uid st'
  ∧ pass_db u (ls_db st) (ls_db st')
  ∧ (max_seen_uid st' = max_seen_uid st
     ∨ (PyStr.int u = Some (max_seen_uid st')
        ∧ u ∈ processed_uids (ls_db st')))
  ∧ (ls_db st' = ls_db st ∨ ∃ msg, w_fetch iw = FetchOk msg).
Proof.
  unfold loop_body.
  destruct (is_uid_processed u (ls_db st)) eqn:Hp.
  { apply is_uid_processed_true in Hp.
    destruct (bump_same u st) as (Hd & _ & _ & Hn & _).
    destruct (bump_max u st) as (Hle & Hc). simpl in *.
    rewrite Hd. split_and!; [done|done|constructor| |by left].
    destruct Hc; auto. }
  apply is_uid_processed_false in Hp.
  destruct (w_fetch iw) as [| |msg] eqn:Hf; cbn [fst];
    [split_and!; [done|lia|constructor|by left|by left]..|].
  destruct (cfg_get cfg "ai" "drop_labels" "marketing, fyi") as [csv|];
    cbn [fst]; [|split_and!; [done|lia|constructor|by left|by left]].
  destruct (if get_bool cfg "ai" "classify_before_add" true then _ else _)
    as [[cls_label cls_mode] err1].
  destruct (_ && _).
  - match goal with |- context [bump u ?s] =>
      destruct (bump_same u s) as (Hd & _ & _ & Hn & _);
      destruct (bump_max u s) as (Hle & Hc) end.
    simpl in *. rewrite Hd. split_and!; [done|done|by constructor| |eauto].
    destruct Hc as [?|?]; [by left|right]. split; [done|]. set_solver.
  - destruct (if lc_ai_enabled lc then _ else _) as [[summary ai_mode] err2].
    match goal with |- context [add_task ?a ?b ?c ?o ?n ?d] =>
      pose proof (pass_add u d a b c n Hp) as Hpass;
      pose proof (add_task_fresh a b c n u d Hp) as Hadd;
      destruct (add_task a b c o n d) as [d' created] end.
    match goal with |- context [bump u ?s] =>
      destruct (bump_same u s) as (Hd & _ & _ & Hn & _);
      destruct (bump_max u s) as (Hle & Hc) end.
    simpl in *. rewrite Hd. split_and!; [done|done|done| |eauto].
    destruct Hc as [?|Hi]; [by left|right]. split; [done|].
    injection Hadd as -> _. rewrite (int_truthy _ _ Hi). set_solver.
Qed.

Lemma loop_inv_from (P : loop_state → Prop) iter uids k0 :
  (∀ j u st, uids !! j = Some u → P st →
             P (loop_body cfg lc ai (iter (k0 + j)%nat) u st).1) →
  ∀ st, P st → P (loop cfg lc ai iter k0 uids st).1.
Proof.
  revert k0. induction uids as [|u uids IH]; intros k0 Hstep st Hst; [done|].
  simpl. pose proof (Hstep 0%nat u st eq_refl Hst) as H1.
  rewrite Nat.add_0_r in H1.
  destruct (loop_body cfg lc ai (iter k0) u st) as [st1 []]; [|done].
  apply IH; [|done]. intros j u' st' Hj. specialize (Hstep (S j) u' st' Hj).
  by rewrite Nat.add_succ_r in Hstep.
Qed.

(** A property of the loop state that every pass preserves holds when the
    loop is left, whichever way it is left. *)
Lemma loop_inv (P : loop_state → Prop) iter uids :
  (∀ k u st, uids !! k = Some u → P st →
             P (loop_body cfg lc ai (iter k) u st).1) →
  ∀ st, P st → P (loop cfg lc ai iter 0 uids st).1.
Proof. intros H. by apply loop_inv_from. Qed.

Lemma loop_new_count iter uids st :
  new_count (loop cfg lc ai iter 0 uids st).1 = new_count st.
Proof.
  apply (loop_inv (λ s, new_count s = new_count st)); [|done].
  intros k u s _ <-. apply loop_body_cases.
Qed.

Lemma loop_max_seen iter uids st :
  max_seen_uid st ≤ max_seen_uid (loop cfg lc ai iter 0 uids st).1.
Proof.
  apply (loop_inv (λ s, max_seen_uid st ≤ max_seen_uid s)); [|done].
  intros k u s _ H. etrans; [exact H|]. apply loop_body_cases.
Qed.

Lemma loop_metadata iter uids st :
  metadata (ls_db (loop cfg lc ai iter 0 uids st).1) = metadata (ls_db st).
Proof.
  apply (loop_inv (λ s, metadata (ls_db s) = metadata (ls_db st))); [|done].
  intros k u s _ <-. eapply pass_db_metadata, loop_body_cases.
Qed.

Lemma loop_processed_mono iter uids st :
  processed_uids (ls_db st)
    ⊆ processed_uids (ls_db (loop cfg lc ai iter 0 uids st).1).
Proof.
  apply (loop_inv (λ s, processed_uids (ls_db st) ⊆ processed_uids (ls_db s)));
    [|done].
  intros k u s _ H. etrans; [exact H|].
  eapply pass_db_processed, loop_body_cases.
Qed.

Lemma loop_store_ok iter uids st :
  Forall (λ u, PyStr.truthy u = true) uids →
  store_ok (ls_db st) →
  store_ok (ls_db (loop cfg lc ai iter 0 uids st).1).
Proof.
  intros Hall. apply (loop_inv (λ s, store_ok (ls_db s))).
  intros k u s Hk H. eapply pass_db_store_ok; [|done|apply loop_body_cases].
  eapply Forall_lookup_1 in Hall; eauto.
Qed.

Lemma loop_records m iter uids st :
  m ∈ processed_uids (ls_db st) →
  let st' := (loop cfg lc ai iter 0 uids st).1 in
  records_of m (ls_db st') = records_of m (ls_db st)
  ∧ m ∈ processed_uids (ls_db st').
Proof.
  intros Hm.
  apply (loop_inv (λ s, records_of m (ls_db s) = records_of m (ls_db st)
                        ∧ m ∈ processed_uids (ls_db s))); [|done].
  intros k u s _ [<- H]. split.
  - eapply pass_db_records; [done|apply loop_body_cases].
  - eapply pass_db_processed; [apply loop_body_cases|done].
Qed.



End passes.

(* ===================================================================== *)
(** * One cycle *)
(* ===================================================================== *)

Section cycle.
Context (self : GmailPoller) (w : world) (err : string) (d : db).

Lemma cursor_lookup (d1 d2 : db) :
  metadata d1 !! "last_uid" = metadata d2 !! "last_uid" →
  cursor d1 = cursor d2.
Proof. unfold cursor, get_metadata. by intros ->. Qed.

Lemma cursor_metadata (d1 d2 : db) :
  metadata d1 = metadata d2 → cursor d1 = cursor d2.
Proof. intros H. apply cursor_lookup. by rewrite H. Qed.

Lemma cursor_saved (z : Z) (d1 : db) :
  cursor (save_metadata "last_uid" (PyStr.str z) d1) = Some z.
Proof.
  unfold cursor, get_metadata. simpl. rewrite lookup_insert_eq. simpl.
  apply int_or_0_str.
Qed.

Lemma plan_early r :
  plan_of self w err d = Early r → res_db r = d ∧ res_err r = err.
Proof.
  unfold plan_of, logout_report, report, returned, raised. intros H.
  repeat case_match; by simplify_eq/=.
Qed.

Lemma plan_go uids lc start :
  plan_of self w err d = Go uids lc start →
  Forall (λ u, PyStr.truthy u = true) uids ∧ cursor d = Some start.
Proof.
  unfold plan_of. intros H. repeat case_match; simplify_eq/=.
  all: split; [|done].
  all: match goal with H : sorted_by_int _ = Some _ |- _ =>
         apply sorted_by_int_perm in H; rewrite H end.
  all: match goal with H : filter _ _ = _ |- _ => rewrite <- H end.
  all: apply Forall_forall; by intros u [? _]%list_elem_of_filter.
Qed.

(** The database a cycle leaves behind is the one the loop leaves behind,
    up to the cursor, which is saved when the loop ran to its end. *)
Lemma check_mail_go uids lc start :
  plan_of self w err d = Go uids lc start →
  let st := (run_loop self w err d uids lc start).1 in
  let r := check_mail self w err d in
  tasks (res_db r) = tasks (ls_db st)
  ∧ processed_uids (res_db r) = processed_uids (ls_db st)
  ∧ metadata (ls_db st) = metadata d
  ∧ (res_db r = ls_db st
     ∨ res_db r = save_metadata "last_uid" (PyStr.str (max_seen_uid st))
                    (ls_db st))
  ∧ (res_raised r = false →
     res_db r = save_metadata "last_uid" (PyStr.str (max_seen_uid st))
                  (ls_db st)).
Proof.
  intros Hp. unfold check_mail. rewrite Hp.
  pose proof (loop_metadata (cfg self) lc (w_ai w) (w_iter w) uids
    {| ls_db := d; ls_err := err; max_seen_uid := start;
       last_ai_mode := None; new_count := 0; dropped := 0 |}) as Hm.
  unfold run_loop. destruct (loop _ _ _ _ _ _ _) as [st []]; cbn [fst].
  - destruct (w_logout w); cbn [negb]; [|by split_and!; auto].
    destruct (last_ai_mode st) as [mode|]; [|by split_and!; auto].
    destruct (_ && _); by split_and!; auto.
  - split_and!; auto. done.
Qed.

(** The two ways out of the loop. *)
Lemma check_mail_raise uids lc start st :
  plan_of self w err d = Go uids lc start →
  run_loop self w err d uids lc start = (st, Raise) →
  check_mail self w err d = raised (ls_db st) (ls_err st).
Proof. intros Hp Hl. unfold check_mail. by rewrite Hp, Hl. Qed.

Lemma check_mail_next uids lc start st :
  plan_of self w err d = Go uids lc start →
  run_loop self w err d uids lc start = (st, Next) →
  let r := check_mail self w err d in
  let summary :=
    match last_ai_mode st with
    | Some mode =>
        if status_callback self && PyStr.truthy mode
        then Some (status_line mode (new_count st) (dropped st))
        else None
    | None => None
    end in
  res_db r = save_metadata "last_uid" (PyStr.str (max_seen_uid st)) (ls_db st)
  ∧ res_err r = ls_err st
  ∧ res_status r = (if w_logout w then summary else None)
  ∧ res_raised r
    = (if w_logout w
       then match summary with
            | Some _ => negb (w_callback w)
            | None => false
            end
       else true).
Proof.
  intros Hp Hl. unfold check_mail. rewrite Hp, Hl.
  destruct (w_logout w); cbn [negb]; [|done].
  destruct (last_ai_mode st) as [mode|]; [|done].
  by destruct (_ && _).
Qed.

Lemma check_mail_cursor c :
  cursor d = Some c →
  ∃ c', cursor (res_db (check_mail self w err d)) = Some c' ∧ c ≤ c'.
Proof.
  intros Hc. destruct (plan_of self w err d) as [r|uids lc start] eqn:Hp.
  - unfold check_mail. rewrite Hp. apply plan_early in Hp as [-> _].
    exists c. split; [done|lia].
  - destruct (check_mail_go _ _ _ Hp) as (_ & _ & Hm & [H|H] & _).
    + exists c. split; [|lia]. rewrite H, <- Hc. by apply cursor_metadata.
    + apply plan_go in Hp as [_ Hs]. rewrite Hc in Hs. injection Hs as <-.
      rewrite H, cursor_saved. eexists; split; [done|].
      apply (loop_max_seen (cfg self) lc (w_ai w) (w_iter w) uids
        {| ls_db := d; ls_err := err; max_seen_uid := c;
           last_ai_mode := None; new_count := 0; dropped := 0 |}).
Qed.

Lemma check_mail_store_ok :
  store_ok d → store_ok (res_db (check_mail self w err d)).
Proof.
  intros Hd. destruct (plan_of self w err d) as [r|uids lc start] eqn:Hp.
  - unfold check_mail. rewrite Hp. by apply plan_early in Hp as [-> _].
  - destruct (check_mail_go _ _ _ Hp) as (Ht & Hu & _).
    apply plan_go in Hp as [Hall _].
    pose proof (loop_store_ok (cfg self) lc (w_ai w) (w_iter w) uids
      {| ls_db := d; ls_err := err; max_seen_uid := start;
         last_ai_mode := None; new_count := 0; dropped := 0 |} Hall Hd) as Hs.
    unfold store_ok, uids_of in *. fold (run_loop self w err d uids lc start) in Hs.
    by rewrite Ht, Hu.
Qed.

Lemma check_mail_records m :
  m ∈ processed_uids d →
  let r := check_mail self w err d in
  records_of m (res_db r) = records_of m d ∧ m ∈ processed_uids (res_db r).
Proof.
  intros Hm. destruct (plan_of self w err d) as [r|uids lc start] eqn:Hp.
  - unfold check_mail. rewrite Hp. by apply plan_early in Hp as [-> _].
  - destruct (check_mail_go _ _ _ Hp) as (Ht & Hu & _).
    pose proof (loop_records (cfg self) lc (w_ai w) m (w_iter w) uids
      {| ls_db := d; ls_err := err; max_seen_uid := start;
         last_ai_mode := None; new_count := 0; dropped := 0 |} Hm) as Hs.
    fold (run_loop self w err d uids lc start) in Hs. simpl in *.
    unfold records_of in *. by rewrite Ht, Hu.
Qed.

(** C8, as the code has it. When the search for the current cursor (and
    date filter) lists no message identifier, the cycle logs out and then
    hands ["IMAP OK (no new)"] to the status callback (if one is installed)
    and returns; it ends in an exception instead when the logout raises
    (nothing is reported then) or when the callback raises. In each case the
    database, and with it the records and the persisted cursor, is
    untouched. *)
Theorem no_new_ids_reported :
  no_new_ids self w d →
  check_mail self w err d
  = if w_logout w
    then {| res_db := d; res_err := err;
            res_status := if status_callback self
                          then Some "IMAP OK (no new)" else None;
            res_raised := status_callback self && negb (w_callback w) |}
    else {| res_db := d; res_err := err; res_status := None;
            res_raised := true |}.
Proof.
  intros (query & tokens & (ic & Hic & Hu & Hpw & Hc & Hq) & Hs & Hf).
  unfold check_mail, plan_of.
  rewrite Hic, Hu, Hpw, Hc, Hq, Hs, Hf. cbn [negb andb String.eqb].
  unfold logout_report, report, returned, raised.
  by destruct (w_logout w), (status_callback self).
Qed.

End cycle.

(** A case of the statement above. *)
Lemma no_new_ids_reported_witness :
  no_new_ids poller_plain world_none ensure_db
  ∧ check_mail poller_plain world_none "" ensure_db
    = {| res_db := ensure_db; res_err := "";
         res_status := Some "IMAP OK (no new)"; res_raised := false |}.
Proof.
  assert (no_new_ids poller_plain world_none ensure_db) as H.
  { exists "(UID 1:*)", []. split_and!; try (vm_compute; reflexivity).
    eexists. split_and!; vm_compute; reflexivity. }
  split; [exact H|].
  exact (no_new_ids_reported poller_plain world_none "" ensure_db H).
Defined.

(** C8 as stated fails: the mailbox lists nothing new, and the status is not
    ["OK (no new)"]. *)
Lemma no_new_status_counterexample :
  no_new_ids poller_plain world_none ensure_db
  ∧ status_callback poller_plain = true
  ∧ res_status (check_mail poller_plain world_none "" ensure_db)
    ≠ Some "OK (no new)".
Proof.
  split.
  { exists "(UID 1:*)", []. split_and!; try (vm_compute; reflexivity).
    eexists. split_and!; vm_compute; reflexivity. }
  split; [done|]. vm_compute. discriminate.
Qed.

(* ===================================================================== *)
(** * The commands of the window *)
(* ===================================================================== *)

Section commands.
Implicit Types (d : db) (m : string) (t : task) (f : task → task).

Lemma omap_uid_fmap f (l : list task) :
  (∀ t, email_uid (f t) = email_uid t) →
  omap email_uid (f <$> l) = omap email_uid l.
Proof.
  intros Hf. induction l as [|t l IH]; csimpl; [done|].
  by rewrite Hf, IH.
Qed.

Lemma omap_uid_sublist (l1 l2 : list task) :
  l1 `sublist_of` l2 → omap email_uid l1 `sublist_of` omap email_uid l2.
Proof.
  induction 1 as [|t l1 l2 _ IH|t l1 l2 _ IH]; csimpl; [done|..];
    destruct (email_uid t); simpl; by try constructor.
Qed.

Lemma filter_uid_fmap f m (l : list task) :
  (∀ t, core (f t) = core t) →
  core <$> filter (λ t, email_uid t = Some m) (f <$> l)
  = core <$> filter (λ t, email_uid t = Some m) l.
Proof.
  intros Hf. induction l as [|t l IH]; [done|].
  assert (email_uid (f t) = email_uid t) as E.
  { pose proof (Hf t) as H. unfold core in H. congruence. }
  rewrite fmap_cons, !filter_cons, E.
  destruct (decide _); csimpl; [rewrite Hf|]; by rewrite IH.
Qed.

(** An [UPDATE] that leaves [core] alone keeps the invariant and the
    records of every message. *)
Lemma store_ok_update f d :
  (∀ t, core (f t) = core t) → store_ok d → store_ok (set_tasks (fmap f) d).
Proof.
  intros Hf [Hm Hn].
  assert (∀ t, email_uid (f t) = email_uid t) as E.
  { intros t. pose proof (Hf t) as H. unfold core in H. congruence. }
  split.
  - intros t m (t0 & -> & Ht)%list_elem_of_fmap. rewrite E. simpl. eauto.
  - unfold uids_of. simpl. by rewrite omap_uid_fmap.
Qed.

Lemma records_update f m d :
  (∀ t, core (f t) = core t) →
  core <$> records_of m (set_tasks (fmap f) d) = core <$> records_of m d.
Proof. intros Hf. by apply filter_uid_fmap. Qed.

Lemma store_ok_delete i d : store_ok d → store_ok (delete_task i d).
Proof.
  intros [Hm Hn]. split.
  - intros t m [_ Ht]%list_elem_of_filter. simpl. eauto.
  - unfold uids_of. simpl. eapply sublist_NoDup; [exact Hn|].
    apply omap_uid_sublist, sublist_filter.
Qed.

Lemma records_delete i m d :
  records_of m (delete_task i d)
  = filter (λ t, tid t ≠ i) (records_of m d).
Proof.
  unfold records_of. simpl. rewrite !list_filter_filter.
  apply list_filter_iff. tauto.
Qed.

Lemma list_active_tasks_db h rc n1 n2 d :
  (list_active_tasks h rc n1 n2 d).1 = d
  ∨ ∃ ids, (list_active_tasks h rc n1 n2 d).1 = archive_ids n2 ids d.
Proof.
  unfold list_active_tasks.
  destruct (to_archive_of _ _) as [|i ids]; destruct rc; simpl; eauto.
Qed.

End commands.

Section lifetime.
Implicit Types (a : app) (e : event) (es : list event) (m : string).

Lemma filter_uid_none (l : list task) m :
  m ∉ omap email_uid l → filter (λ t, email_uid t = Some m) l = [].
Proof.
  induction l as [|x l IH]; [done|]. csimpl. intros Hm.
  rewrite filter_cons. destruct (decide _) as [E|E].
  - rewrite E in Hm. set_solver.
  - apply IH. destruct (email_uid x); set_solver.
Qed.

Lemma filter_uid_unique (l : list task) m t :
  NoDup (omap email_uid l) → t ∈ l → email_uid t = Some m →
  filter (λ t, email_uid t = Some m) l = [t].
Proof.
  induction l as [|x l IH]; intros Hn Ht E; [by apply elem_of_nil in Ht|].
  csimpl in Hn. rewrite filter_cons. destruct (decide _) as [Ex|Ex].
  - rewrite Ex in Hn. apply NoDup_cons in Hn as [Hx Hn].
    rewrite (filter_uid_none _ _ Hx).
    apply elem_of_cons in Ht as [->|Ht]; [done|].
    destruct Hx. apply list_elem_of_omap. eauto.
  - apply elem_of_cons in Ht as [->|Ht]; [done|]. apply IH; [|done..].
    destruct (email_uid x); [by apply NoDup_cons in Hn as [_ ?]|done].
Qed.

Lemma records_unique d m t :
  store_ok d → t ∈ tasks d → email_uid t = Some m → records_of m d = [t].
Proof. intros [_ Hn]. by apply filter_uid_unique. Qed.

Lemma records_at_most_one d m :
  store_ok d → (length (records_of m d) ≤ 1)%nat.
Proof.
  intros Hd. destruct (records_of m d) as [|t l] eqn:E; simpl; [lia|].
  assert (t ∈ records_of m d) as [Hu Ht]%list_elem_of_filter
    by (rewrite E; left).
  rewrite (records_unique _ _ _ Hd Ht Hu) in E. by injection E as <-.
Qed.

Lemma archive_core now (ids : list Z) t :
  core (if bool_decide (tid t ∈ ids)
        then {| tid := tid t; email_uid := email_uid t; subject := subject t;
                snippet := snippet t; task_text := task_text t;
                created_at := created_at t; completed_at := completed_at t;
                is_completed := is_completed t; archived_at := Some now |}
        else t) = core t.
Proof. by destruct (bool_decide _). Qed.

Lemma step_store_ok a e : store_ok (app_db a) → store_ok (app_db (step a e)).
Proof.
  intros Hd. destruct e as [self w|h n1 n2|i done now|i|now|text subj snip now|g];
    simpl.
  - by apply check_mail_store_ok.
  - destruct (list_active_tasks_db h true n1 n2 (app_db a)) as [->|[ids ->]];
      [done|].
    apply store_ok_update; [|done]. apply archive_core.
  - apply store_ok_update; [|done]. intros t. by destruct (bool_decide _).
  - by apply store_ok_delete.
  - apply store_ok_update; [|done]. intros t. by destruct (bool_decide _).
  - destruct Hd as [Hm Hn]. split.
    + intros t m [Ht|Ht]%elem_of_app E; simpl; [eauto|].
      by apply list_elem_of_singleton in Ht as ->.
    + unfold uids_of in *. simpl. rewrite omap_app. simpl.
      by rewrite app_nil_r.
  - done.
Qed.

Lemma step_records a e m :
  m ∈ processed_uids (app_db a) →
  core <$> records_of m (app_db (step a e))
    `sublist_of` core <$> records_of m (app_db a)
  ∧ m ∈ processed_uids (app_db (step a e)).
Proof.
  intros Hm. destruct e as [self w|h n1 n2|i done now|i|now|text subj snip now|g];
    simpl.
  - destruct (check_mail_records self w (app_err a) (app_db a) m Hm)
      as [-> ?]. done.
  - destruct (list_active_tasks_db h true n1 n2 (app_db a)) as [->|[ids ->]];
      [done|].
    split; [|done]. unfold archive_ids.
    rewrite records_update; [done|]. apply archive_core.
  - split; [|done]. unfold mark_task_completed.
    rewrite records_update; [done|]. intros t. by destruct (bool_decide _).
  - split; [|done]. rewrite records_delete.
    apply fmap_sublist, sublist_filter.
  - split; [|done]. rewrite records_update; [done|].
    intros t. by destruct (bool_decide _).
  - split; [|done]. unfold records_of. simpl. rewrite filter_app.
    rewrite (filter_cons_False _ _ []), filter_nil, app_nil_r; done.
  - done.
Qed.

Lemma run_store_ok es a : store_ok (app_db a) → store_ok (app_db (run es a)).
Proof.
  revert a. induction es as [|e es IH]; intros a Hd; [done|].
  simpl. by apply IH, step_store_ok.
Qed.

Lemma run_records es a m :
  m ∈ processed_uids (app_db a) →
  core <$> records_of m (app_db (run es a))
    `sublist_of` core <$> records_of m (app_db a)
  ∧ m ∈ processed_uids (app_db (run es a)).
Proof.
  revert a. induction es as [|e es IH]; intros a Hm; [done|].
  simpl. destruct (step_records a e m Hm) as [Hs Hm'].
  destruct (IH _ Hm') as [Hs' ?]. split; [|done]. by etrans.
Qed.

Lemma startup_ok : store_ok (app_db startup).
Proof. split; [by intros t m ?%elem_of_nil | constructor]. Qed.

(** C1, as the code has it. Exactly-once ingestion holds of cycles that
    run one after another. Whatever the application goes through from
    start-up -- cycles on any mailbox contents (the same identifiers
    delivered again, cycles cut short by an exception and run again over the
    same range), one at a time and in any order with the commands of the
    window -- at every moment at most one record carries the message
    identifier [m]; a record carrying [m] at a later moment is the record
    that carried it earlier (same id, same text, same creation time), never
    a second one. The mechanism is the one in [add_task]: for an identifier
    that is not empty, nothing is inserted when [m] is already in
    [processed_uids], and otherwise a row is inserted and [m] is marked. *)
Theorem exactly_once_ingestion (es1 es2 : list event) (m : string) :
  let d1 := app_db (run es1 startup) in
  let d2 := app_db (run es2 (run es1 startup)) in
  (length (records_of m d1) ≤ 1)%nat
  ∧ (∀ t1 t2, t1 ∈ records_of m d1 → t2 ∈ records_of m d2 →
              core t2 = core t1)
  ∧ (∀ text subj snip now d,
       PyStr.truthy m = true →
       add_task text subj snip (Some m) now d =
         if is_uid_processed m d then (d, false)
         else (mark_uid_processed m
                 (insert_task text subj snip (Some m) now d), true)).
Proof.
  intros d1 d2.
  assert (store_ok d1) as Hd1 by apply run_store_ok, startup_ok.
  split_and!.
  - by apply records_at_most_one.
  - intros t1 t2 [Hu Ht]%list_elem_of_filter H2.
    assert (m ∈ processed_uids d1) as Hm by (destruct Hd1 as [H _]; eauto).
    destruct (run_records es2 (run es1 startup) m Hm) as [Hs _].
    fold d1 d2 in Hs. rewrite (records_unique _ _ _ Hd1 Ht Hu) in Hs.
    assert (core t2 ∈ core <$> records_of m d2) as Hin
      by by apply list_elem_of_fmap_2.
    eapply sublist_subseteq in Hin; [|exact Hs].
    by apply list_elem_of_singleton in Hin.
  - intros text subj snip now d Hm.
    destruct (is_uid_processed m d) eqn:E.
    + apply add_task_known; [done|]. by apply is_uid_processed_true.
    + rewrite add_task_fresh, Hm; [done|]. by apply is_uid_processed_false.
Qed.

(** A call of [add_task] whose three statements run without another call
    in between does what [add_task] does. *)
Lemma add_task_uninterrupted text subj snip uid now (b : add_task_call) d :
  interleave [true; true; true] (call_of text subj snip uid now) b d
  = (call_at (AtReturn (add_task text subj snip uid now d).2)
       (call_of text subj snip uid now),
     b, (add_task text subj snip uid now d).1).
Proof.
  unfold add_task, uid_str. cbn.
  destruct (uid_truthy uid && is_uid_processed (default "" uid) d); cbn;
    [done|]. by destruct (uid_truthy uid).
Qed.

(** C1 as stated fails for cycles that overlap in time. Two cycles, one in
    the poller thread and one started by [poll_now], have both fetched
    message 5 and call [add_task] for it. Both run the test of line 90
    before either has marked 5: both insert, and the store holds two
    records for 5. It fails, too, for an identifier that is not null but
    empty: [add_task] inserts it each time and never marks it. *)
Lemma overlapping_cycles_counterexample :
  let a := call_of "From: bob@example.org" "Subject" "" (Some "5") 1000 in
  let b := call_of "From: bob@example.org" "Subject" "" (Some "5") 1001 in
  let r := interleave [true; false; true; true; false; false] a b ensure_db in
  let d2 := (add_task "note" "" "" (Some "") 1001
               (add_task "note" "" "" (Some "") 1000 ensure_db).1).1 in
  call_pc r.1.1 = AtReturn true
  ∧ call_pc r.1.2 = AtReturn true
  ∧ length (records_of "5" r.2) = 2%nat
  ∧ length (records_of "" d2) = 2%nat
  ∧ is_uid_processed "" d2 = false.
Proof. split_and!; vm_compute; reflexivity. Qed.

Lemma step_cursor a e c :
  cursor (app_db a) = Some c →
  ∃ c', cursor (app_db (step a e)) = Some c' ∧ c ≤ c'.
Proof.
  intros Hc.
  destruct e as [self w|h n1 n2|i done now|i|now|text subj snip now|g];
    simpl; [by apply check_mail_cursor|..];
    exists c; (split; [|lia]); rewrite <- Hc; apply cursor_lookup.
  - by destruct (list_active_tasks_db h true n1 n2 (app_db a))
      as [->|[ids ->]].
  - done.
  - done.
  - done.
  - done.
  - simpl. by rewrite lookup_insert_ne.
Qed.

(** C2. Cursor monotonicity. From any state whose metadata hold a readable
    cursor, whatever cycles and commands follow, the persisted cursor stays
    readable and never goes down. *)
Theorem cursor_monotone (es : list event) (a : app) (c : Z) :
  cursor (app_db a) = Some c →
  ∃ c', cursor (app_db (run es a)) = Some c' ∧ c ≤ c'.
Proof.
  revert a c. induction es as [|e es IH]; intros a c Hc.
  - exists c. split; [done|lia].
  - simpl. destruct (step_cursor a e c Hc) as (c1 & H1 & Hle).
    destruct (IH _ _ H1) as (c2 & H2 & Hle'). exists c2. split; [done|lia].
Qed.

(** C9. A record made from message [m] is deleted: only rows of [tasks]
    go, [m] stays in [processed_uids], and whatever follows -- cycles that
    deliver [m] again included -- no record for [m] exists any more. *)
Theorem deleted_record_not_recreated (es1 es2 : list event) (t : task)
    (m : string) :
  let a1 := run es1 startup in
  t ∈ tasks (app_db a1) → email_uid t = Some m →
  let a2 := step a1 (DeleteTask (tid t)) in
  tasks (app_db a2) = filter (λ t', tid t' ≠ tid t) (tasks (app_db a1))
  ∧ processed_uids (app_db a2) = processed_uids (app_db a1)
  ∧ metadata (app_db a2) = metadata (app_db a1)
  ∧ m ∈ processed_uids (app_db a2)
  ∧ records_of m (app_db (run es2 a2)) = [].
Proof.
  intros a1 Ht Hu a2.
  assert (store_ok (app_db a1)) as Hd1 by apply run_store_ok, startup_ok.
  assert (m ∈ processed_uids (app_db a1)) as Hm
    by (destruct Hd1 as [H _]; eauto).
  split_and!; [done..|].
  destruct (run_records es2 a2 m Hm) as [Hs _].
  assert (records_of m (app_db a2) = []) as E.
  { unfold a2. simpl. rewrite records_delete.
    rewrite (records_unique _ _ _ Hd1 Ht Hu).
    rewrite filter_cons_False, filter_nil; [done|]. by intros []. }
  rewrite E in Hs. apply sublist_nil_r in Hs. by apply fmap_nil_inv in Hs.
Qed.

End lifetime.

(* ===================================================================== *)
(** * The cursor and the recorded outcomes *)
(* ===================================================================== *)




(* ===================================================================== *)
(** * Fail-open classification *)
(* ===================================================================== *)





(* ===================================================================== *)
(** * Archival on read *)
(* ===================================================================== *)

Section archival.
Implicit Types (d : db) (t : task) (r : row) (cutoff : timestamp).

Lemma elem_of_select_active r d :
  r ∈ select_active d ↔
  ∃ t, t ∈ tasks d ∧ archived_at t = None ∧ r = row_of t.
Proof.
  unfold select_active. rewrite merge_sort_Permutation, list_elem_of_fmap.
  split.
  - intros (t & -> & [? ?]%list_elem_of_filter). eauto.
  - intros (t & ? & ? & ->). exists t. split; [done|].
    by apply list_elem_of_filter.
Qed.

Lemma to_archive_nil cutoff (rows : list row) :
  (∀ r, r ∈ rows → stale cutoff r = false) → to_archive_of cutoff rows = [].
Proof.
  intros H. unfold to_archive_of.
  induction rows as [|r rows IH]; [done|].
  rewrite filter_cons_False.
  - apply IH. intros r' ?. apply H. by right.
  - rewrite H; [done|]. by left.
Qed.

Lemma to_archive_elem cutoff (rows : list row) r :
  r ∈ rows → stale cutoff r = true →
  r.1.1.1.1 ∈ to_archive_of cutoff rows.
Proof.
  intros Hr Hs. unfold to_archive_of. apply list_elem_of_fmap.
  exists r. split; [done|]. by apply list_elem_of_filter.
Qed.

Lemma stale_later h now1 now2 d t :
  nothing_falls_due h now1 now2 d → t ∈ tasks d →
  stale (now1 - hours h) (row_of t) = false →
  stale (now2 - hours h) (row_of t) = false.
Proof.
  intros Hdue Ht. unfold stale, row_of.
  destruct (completed_at t) as [c|] eqn:E; [|done].
  destruct (is_completed t =? 0); simpl; [done|].
  intros H%Z.ltb_ge. apply Z.ltb_ge. eauto.
Qed.

(** After a call, no row of the active view is stale, neither for the clock
    of that call nor for a later one before which nothing falls due. *)
Lemma nothing_left_to_archive h rc now1 na1 now2 d :
  nothing_falls_due h now1 now2 d →
  to_archive_of (now2 - hours h)
    (select_active (list_active_tasks h rc now1 na1 d).1) = [].
Proof.
  intros Hdue. apply to_archive_nil. intros r.
  unfold list_active_tasks.
  destruct (to_archive_of _ (select_active d)) as [|i ids] eqn:E.
  - assert (∀ r, r ∈ select_active d → stale (now1 - hours h) r = false)
      as Hfresh.
    { intros r0 Hr0. destruct (stale _ r0) eqn:Hs; [|done].
      pose proof (to_archive_elem _ _ _ Hr0 Hs) as Hin.
      rewrite E in Hin. by apply elem_of_nil in Hin. }
    assert ((let '(d0, rows) := (d, select_active d) in
             if rc then (d0, RowsCounts rows (count_active 0 d0)
                                        (count_active 1 d0))
             else (d0, Rows rows)).1 = d) as -> by by destruct rc.
    intros Hr. pose proof (Hfresh r Hr) as Hs.
    apply elem_of_select_active in Hr as (t & Ht & _ & ->).
    by eapply stale_later.
  - rewrite <- E.
    set (ids' := to_archive_of (now1 - hours h) (select_active d)).
    assert ((let '(d0, rows) :=
               (archive_ids na1 ids' d, select_active (archive_ids na1 ids' d))
             in if rc then (d0, RowsCounts rows (count_active 0 d0)
                                           (count_active 1 d0))
                else (d0, Rows rows)).1 = archive_ids na1 ids' d) as ->
      by by destruct rc.
    intros (t' & Ht' & Ha & ->)%elem_of_select_active.
    simpl in Ht'. apply list_elem_of_fmap in Ht' as (t & -> & Ht).
    destruct (bool_decide (tid t ∈ ids')) eqn:Hin; [done|].
    apply bool_decide_eq_false in Hin.
    eapply stale_later; [done..|].
    destruct (stale (now1 - hours h) (row_of t)) eqn:Hs; [|done].
    destruct Hin.
    apply (to_archive_elem _ (select_active d) (row_of t)); [|done].
    apply elem_of_select_active. eauto.
Qed.

(** C5. Idempotent archival. Two calls of [list_active_tasks] in immediate
    succession (same retention window, nothing falling due between the two
    readings of the clock, no command in between): the second call finds
    nothing to archive, leaves the database exactly as the first call left
    it -- so no record is stamped a second time -- and returns the same rows
    and the same counts. *)
Theorem list_active_tasks_idempotent (retention_hours : Z)
    (return_counts : bool) (now1 stamp1 now2 stamp2 : timestamp) (d : db) :
  nothing_falls_due retention_hours now1 now2 d →
  let first := list_active_tasks retention_hours return_counts now1 stamp1 d in
  let second :=
    list_active_tasks retention_hours return_counts now2 stamp2 first.1 in
  to_archive_of (now2 - hours retention_hours) (select_active first.1) = []
  ∧ second.1 = first.1
  ∧ second.2 = first.2.
Proof.
  intros Hdue. cbv zeta.
  pose proof (nothing_left_to_archive retention_hours return_counts
                now1 stamp1 now2 d Hdue) as Hnil.
  split; [done|].
  set (d1 := (list_active_tasks retention_hours return_counts now1 stamp1 d).1)
    in *.
  assert (list_active_tasks retention_hours return_counts now2 stamp2 d1
          = (d1, if return_counts
                 then RowsCounts (select_active d1) (count_active 0 d1)
                                 (count_active 1 d1)
                 else Rows (select_active d1))) as ->.
  { unfold list_active_tasks at 1. rewrite Hnil. by destruct return_counts. }
  split; [done|]. simpl. unfold d1, list_active_tasks.
  destruct (to_archive_of _ (select_active d)); by destruct return_counts.
Qed.

End archival.

(** A case of the statement above: the first call, half a day and 250
    microseconds after the completion, archives the completed note; the
    second call comes five microseconds later. *)
Lemma list_active_tasks_idempotent_witness :
  let first := list_active_tasks 12 true (250 + hours 12) 251 db_done in
  let second := list_active_tasks 12 true (255 + hours 12) 256 first.1 in
  nothing_falls_due 12 (250 + hours 12) (255 + hours 12) db_done
  ∧ to_archive_of (255 + hours 12 - hours 12) (select_active first.1) = []
  ∧ second.1 = first.1
  ∧ second.2 = first.2.
Proof.
  assert (nothing_falls_due 12 (250 + hours 12) (255 + hours 12) db_done)
    as Hdue.
  { intros t c Ht Hc. vm_compute in Ht.
    repeat (apply elem_of_cons in Ht as [->|Ht]);
      [| |by apply elem_of_nil in Ht]; simpl in Hc; [|done].
    injection Hc as <-. unfold hours. lia. }
  split; [exact Hdue|].
  exact (list_active_tasks_idempotent 12 true (250 + hours 12) 251
           (255 + hours 12) 256 db_done Hdue).
Defined.

(* ===================================================================== *)
(** * The status summary *)
(* ===================================================================== *)

Section status.
Context (cfg : config) (lc : loop_cfg) (ai : ai_env).
Implicit Types (st : loop_state) (u : string) (iw : iter_world).





End status.




(** The count of new records in the summary: two records are created, and
    the summary says [+0]. *)
Lemma status_counts_no_new_records :
  let r := check_mail poller_plain world_A "" ensure_db in
  tasks ensure_db = []
  ∧ length (tasks (res_db r)) = 2%nat
  ∧ res_status r = Some "AI OFF | +0 / dropped 0".
Proof. split_and!; vm_compute; reflexivity. Qed.

(** Cases of C2 and C9. *)
Lemma cursor_monotone_witness :
  cursor (app_db startup) = Some 0
  ∧ ∃ c', cursor (app_db (run [Poll poller_plain world_A;
                               Poll poller_plain world_none] startup))
          = Some c' ∧ 0 ≤ c'.
Proof.
  split; [reflexivity|].
  exact (cursor_monotone [Poll poller_plain world_A;
                          Poll poller_plain world_none] startup 0 eq_refl).
Defined.

Lemma deleted_record_not_recreated_witness :
  let a1 := run [Poll poller_plain world_5] startup in
  let a2 := step a1 (DeleteTask (tid task_5)) in
  (task_5 ∈ tasks (app_db a1) ∧ email_uid task_5 = Some "5")
  ∧ tasks (app_db a2)
    = filter (λ t', tid t' ≠ tid task_5) (tasks (app_db a1))
  ∧ processed_uids (app_db a2) = processed_uids (app_db a1)
  ∧ metadata (app_db a2) = metadata (app_db a1)
  ∧ "5" ∈ processed_uids (app_db a2)
  ∧ records_of "5" (app_db (run [Poll poller_plain world_A] a2)) = [].
Proof.
  assert (task_5 ∈ tasks (app_db (run [Poll poller_plain world_5] startup)))
    as Hin.
  { replace (tasks (app_db (run [Poll poller_plain world_5] startup)))
      with [task_5] by (vm_compute; reflexivity). by left. }
  split; [by split|].
  exact (deleted_record_not_recreated [Poll poller_plain world_5]
           [Poll poller_plain world_A] task_5 "5" Hin eq_refl).
Defined.

(* ===================================================================== *)
(** * How the table evolves *)
(* ===================================================================== *)

Section table.
Implicit Types (d : db) (t : task) (a : app) (e : event) (es : list event).

Lemma tame_tid f t : tame f → tid (f t) = tid t.
Proof. intros Hf. destruct (Hf t) as [H _]. unfold core in H. congruence. Qed.

Lemma tame_archive now (ids : list Z) :
  tame (λ t,
    if bool_decide (tid t ∈ ids)
    then {| tid := tid t; email_uid := email_uid t; subject := subject t;
            snippet := snippet t; task_text := task_text t;
            created_at := created_at t; completed_at := completed_at t;
            is_completed := is_completed t; archived_at := Some now |}
    else t).
Proof. intros t. by destruct (bool_decide _). Qed.

Lemma tame_archive_all now :
  tame (λ t,
    if bool_decide (archived_at t = None ∧ is_completed t = 1)
    then {| tid := tid t; email_uid := email_uid t; subject := subject t;
            snippet := snippet t; task_text := task_text t;
            created_at := created_at t; completed_at := completed_at t;
            is_completed := is_completed t; archived_at := Some now |}
    else t).
Proof. intros t. by destruct (bool_decide _). Qed.

Lemma tame_toggle i (done : bool) now :
  tame (λ t,
    if bool_decide (tid t = i)
    then {| tid := tid t; email_uid := email_uid t; subject := subject t;
            snippet := snippet t; task_text := task_text t;
            created_at := created_at t;
            completed_at := if done then Some now else None;
            is_completed := if done then 1 else 0;
            archived_at := archived_at t |}
    else t).
Proof.
  intros t. destruct (bool_decide _); [|done]. split_and!; [done..|].
  intros _. unfold flag_ok. destruct done; simpl; eauto.
Qed.

Lemma insert_task_table text subj snip o now d :
  table_step d (insert_task text subj snip o now d).
Proof. by eapply ts_insert. Qed.

Lemma pass_db_table u d d' : pass_db u d d' → rtc table_step d d'.
Proof.
  destruct 1 as [| |text subj snip now H]; [done|by apply rtc_once, ts_same|].
  rewrite add_task_fresh by done. cbn [fst].
  eapply rtc_l; [apply (insert_task_table text subj snip (Some u) now)|].
  destruct (PyStr.truthy u); [by apply rtc_once, ts_same|done].
Qed.

Lemma check_mail_table self w err d :
  rtc table_step d (res_db (check_mail self w err d)).
Proof.
  destruct (plan_of self w err d) as [r|uids lc start] eqn:Hp.
  - unfold check_mail. rewrite Hp. by apply plan_early in Hp as [-> _].
  - destruct (check_mail_go _ _ _ _ _ _ _ Hp) as (_ & _ & _ & Hdb & _).
    cbv zeta in Hdb.
    assert (rtc table_step d (ls_db (run_loop self w err d uids lc start).1))
      as H.
    { apply (loop_inv (cfg self) lc (w_ai w)
               (λ s, rtc table_step d (ls_db s))); [|done].
      intros k u s _ Hs. etrans; [exact Hs|].
      eapply pass_db_table, loop_body_cases. }
    destruct Hdb as [-> | ->]; [done|].
    eapply rtc_r; [exact H|]. by apply ts_same.
Qed.

(** Every event changes the table by steps of the four kinds only. *)
Lemma step_table a e : rtc table_step (app_db a) (app_db (step a e)).
Proof.
  destruct e as [self w|h n1 n2|i done now|i|now|text subj snip now|g];
    cbn [step app_db].
  - apply check_mail_table.
  - destruct (list_active_tasks_db h true n1 n2 (app_db a)) as [->|[ids ->]];
      [done|].
    apply rtc_once. eapply ts_update; [apply (tame_archive n2 ids)|done..].
  - apply rtc_once. eapply ts_update; [apply (tame_toggle i done now)|done..].
  - apply rtc_once. by eapply ts_delete.
  - apply rtc_once. eapply ts_update; [apply (tame_archive_all now)|done..].
  - apply rtc_once, insert_task_table.
  - by apply rtc_once, ts_same.
Qed.

Lemma run_table es a : rtc table_step (app_db a) (app_db (run es a)).
Proof.
  revert a. induction es as [|e es IH]; intros a; [done|].
  cbn [run foldl]. etrans; [apply step_table|apply IH].
Qed.

Lemma table_inv (P : db → Prop) :
  (∀ d d', table_step d d' → P d → P d') →
  ∀ d d', rtc table_step d d' → P d → P d'.
Proof. intros Hstep d d'. induction 1; eauto. Qed.

Lemma tid_fmap_tame f (l : list task) : tame f → tid <$> (f <$> l) = tid <$> l.
Proof.
  intros Hf. rewrite <- list_fmap_compose. apply list_fmap_ext.
  intros _ t _. by apply tame_tid.
Qed.

Lemma ids_ok_step d d' : table_step d d' → ids_ok d → ids_ok d'.
Proof.
  intros [Ht Hs|row Ht Hs Hid _ _ _|f Hf Ht Hs|P dec Ht Hs] [Hle Hnd];
    unfold ids_ok; rewrite Ht, Hs.
  - done.
  - split.
    + intros t [?%Hle | ->%list_elem_of_singleton]%elem_of_app; lia.
    + rewrite fmap_app. apply NoDup_app. split_and!; [done| |apply NoDup_singleton].
      intros i (t & -> & ?%Hle)%list_elem_of_fmap ?%list_elem_of_singleton.
      simpl in *. lia.
  - split; [|by rewrite tid_fmap_tame].
    intros t' (t & -> & ?)%list_elem_of_fmap. rewrite tame_tid by done. eauto.
  - split.
    + intros t [_ ?]%list_elem_of_filter. eauto.
    + eapply sublist_NoDup; [exact Hnd|]. apply fmap_sublist, sublist_filter.
Qed.

Lemma run_ids_ok es : ids_ok (app_db (run es startup)).
Proof.
  eapply (table_inv ids_ok ids_ok_step); [apply run_table|].
  split; [by intros t ?%elem_of_nil|constructor].
Qed.

Lemma tid_inj (l : list task) t t' :
  NoDup (tid <$> l) → t ∈ l → t' ∈ l → tid t = tid t' → t = t'.
Proof.
  induction l as [|x l IH]; [by intros _ ?%elem_of_nil|].
  rewrite fmap_cons, NoDup_cons.
  intros [Hx Hnd] [->|Ht]%elem_of_cons [->|Ht']%elem_of_cons E; [done|..].
  - destruct Hx. rewrite E. apply list_elem_of_fmap. eauto.
  - destruct Hx. rewrite <- E. apply list_elem_of_fmap. eauto.
  - by apply IH.
Qed.

(** X1. Row ids behave like AUTOINCREMENT ids: in every state the
    application can reach, the ids of the rows of [tasks] are pairwise
    distinct and none exceeds the counter, so the next INSERT gets an id no
    row has. *)
Theorem task_ids_unique (es : list event) :
  let d := app_db (run es startup) in
  NoDup (tid <$> tasks d)
  ∧ (∀ t, t ∈ tasks d → 1 ≤ tid t ≤ tasks_seq d)
  ∧ ∀ text subj snip o now t,
      t ∈ tasks d →
      tid t < tasks_seq (insert_task text subj snip o now d).
Proof.
  cbv zeta. destruct (run_ids_ok es) as [Hle Hnd]. split_and!; [done| |].
  - intros t Ht. split; [|by apply Hle].
    revert t Ht.
    eapply (table_inv (λ d, 0 ≤ tasks_seq d ∧ ∀ t, t ∈ tasks d → 1 ≤ tid t));
      [|apply run_table|split; [done|by intros t ?%elem_of_nil]].
    intros d d' [Ht Hs|row Ht Hs Hid _ _ _|f Hf Ht Hs|P dec Ht Hs] [H0 H1];
      rewrite Ht, Hs; (split; [lia|]).
    + done.
    + intros t [?%H1 | ->%list_elem_of_singleton]%elem_of_app; lia.
    + intros t' (t & -> & ?)%list_elem_of_fmap. rewrite tame_tid by done. eauto.
    + intros t [_ ?]%list_elem_of_filter. eauto.
  - intros text subj snip o now t Ht%Hle. simpl. lia.
Qed.

(** X2. An id is never handed out twice: once the row with id [tid t] is
    deleted, no later state -- whatever is polled, added or toggled
    afterwards -- has a row with that id. *)
Theorem deleted_id_never_reused (es1 es2 : list event) (t : task) :
  let a1 := run es1 startup in
  t ∈ tasks (app_db a1) →
  ∀ t', t' ∈ tasks (app_db (run es2 (step a1 (DeleteTask (tid t))))) →
        tid t' ≠ tid t.
Proof.
  intros a1 Ht.
  assert (tid t ≤ tasks_seq (app_db (step a1 (DeleteTask (tid t))))
          ∧ ∀ t', t' ∈ tasks (app_db (step a1 (DeleteTask (tid t)))) →
                  tid t' ≠ tid t) as H0.
  { destruct (run_ids_ok es1) as [Hle _]. split; [by apply Hle|].
    by intros t' [? _]%list_elem_of_filter. }
  revert H0.
  apply (table_inv (λ d, tid t ≤ tasks_seq d
                         ∧ ∀ t', t' ∈ tasks d → tid t' ≠ tid t));
    [|apply run_table].
  intros d d' [Ht' Hs|row Ht' Hs Hid _ _ _|f Hf Ht' Hs|P dec Ht' Hs] [H0 H1];
    rewrite Ht', Hs; (split; [lia|]).
  - done.
  - intros t' [?%H1 | ->%list_elem_of_singleton]%elem_of_app; [done|lia].
  - intros t'' (t' & -> & ?)%list_elem_of_fmap. rewrite tame_tid by done. eauto.
  - intros t' [_ ?]%list_elem_of_filter. eauto.
Qed.

(** A case of the statement above. *)
Lemma deleted_id_never_reused_witness :
  let a1 := run [Poll poller_plain world_5] startup in
  task_5 ∈ tasks (app_db a1)
  ∧ ∀ t', t' ∈ tasks (app_db (run [Poll poller_plain world_A]
                                  (step a1 (DeleteTask (tid task_5))))) →
          tid t' ≠ tid task_5.
Proof.
  assert (task_5 ∈ tasks (app_db (run [Poll poller_plain world_5] startup)))
    as Hin.
  { replace (tasks (app_db (run [Poll poller_plain world_5] startup)))
      with [task_5] by (vm_compute; reflexivity). by left. }
  split; [exact Hin|].
  exact (deleted_id_never_reused [Poll poller_plain world_5]
           [Poll poller_plain world_A] task_5 Hin).
Defined.

(** X3. Archival is permanent: a row that is archived stays archived
    through every later cycle and command (until it is deleted), and no
    later call of [list_active_tasks] lists its id. *)
Theorem archived_stays_archived (es1 es2 : list event) (t : task) :
  let a1 := run es1 startup in
  t ∈ tasks (app_db a1) → archived_at t ≠ None →
  let d2 := app_db (run es2 a1) in
  (∀ t', t' ∈ tasks d2 → tid t' = tid t → archived_at t' ≠ None)
  ∧ ∀ r, r ∈ select_active d2 → r.1.1.1.1 ≠ tid t.
Proof.
  intros a1 Ht Ha d2.
  assert (∀ t', t' ∈ tasks d2 → tid t' = tid t → archived_at t' ≠ None) as H.
  { assert (tid t ≤ tasks_seq (app_db a1)
            ∧ ∀ t', t' ∈ tasks (app_db a1) → tid t' = tid t →
                    archived_at t' ≠ None) as H0.
    { destruct (run_ids_ok es1) as [Hle Hnd]. split; [by apply Hle|].
      intros t' Ht' E. by rewrite (tid_inj _ _ _ Hnd Ht' Ht E). }
    revert H0. unfold d2.
    intros H0.
    apply (table_inv (λ d, tid t ≤ tasks_seq d
                           ∧ ∀ t', t' ∈ tasks d → tid t' = tid t →
                                   archived_at t' ≠ None)
             ) with (d' := app_db (run es2 a1)) in H0;
      [by destruct H0|clear H0|apply run_table].
    intros d d' [Ht' Hs|row Ht' Hs Hid _ _ _|f Hf Ht' Hs|P dec Ht' Hs] [H0 H1];
      rewrite Ht', Hs; (split; [lia|]).
    - done.
    - intros t' [? | ->%list_elem_of_singleton]%elem_of_app; [eauto|lia].
    - intros t'' (t' & -> & ?)%list_elem_of_fmap. rewrite tame_tid by done.
      intros E. apply Hf. eauto.
    - intros t' [_ ?]%list_elem_of_filter. eauto. }
  split; [done|].
  intros r (t' & Ht' & Hn & ->)%elem_of_select_active E. simpl in E.
  by apply (H t' Ht' E).
Qed.

End table.

(* ===================================================================== *)
(** * The listing *)
(* ===================================================================== *)

Section listing.
Implicit Types (d : db) (t : task) (r : row).

#[local] Instance row_before_total : Total row_before.
Proof.
  intros [[[[id1 ?] done1] ?] ?] [[[[id2 ?] done2] ?] ?]. simpl. lia.
Qed.

#[local] Instance row_before_trans : Transitive row_before.
Proof.
  intros [[[[id1 ?] done1] ?] ?] [[[[id2 ?] done2] ?] ?]
         [[[[id3 ?] done3] ?] ?]. simpl. lia.
Qed.

Lemma list_active_tasks_rows h rc n1 n2 d :
  rows_of (list_active_tasks h rc n1 n2 d).2
  = select_active (list_active_tasks h rc n1 n2 d).1.
Proof.
  unfold list_active_tasks.
  destruct (to_archive_of _ _); by destruct rc.
Qed.

Lemma list_active_tasks_counts h n1 n2 d :
  let out := list_active_tasks h true n1 n2 d in
  out.2 = RowsCounts (select_active out.1) (count_active 0 out.1)
                     (count_active 1 out.1).
Proof. unfold list_active_tasks. by destruct (to_archive_of _ _). Qed.

(** X4. The rows [list_active_tasks] returns are the rows left unarchived
    after its own archival pass, in the order of the query: incomplete rows
    before completed ones, and within each group the larger id first. *)
Theorem listing_sorted (retention_hours : Z) (return_counts : bool)
    (now stamp : timestamp) (d : db) :
  let out := list_active_tasks retention_hours return_counts now stamp d in
  StronglySorted row_before (rows_of out.2)
  ∧ rows_of out.2
    ≡ₚ row_of <$> filter (λ t, archived_at t = None) (tasks out.1).
Proof.
  cbv zeta. rewrite list_active_tasks_rows. unfold select_active. split.
  - apply StronglySorted_merge_sort; apply _.
  - apply merge_sort_Permutation.
Qed.

Lemma count_active_rows v d :
  count_active v d
  = Z.of_nat (length (filter (λ r, row_done r = v) (select_active d))).
Proof.
  unfold count_active, select_active. f_equal.
  rewrite merge_sort_Permutation.
  induction (tasks d) as [|t l IH]; [done|].
  rewrite !filter_cons.
  destruct (decide (archived_at t = None)) as [Ha|Ha].
  - rewrite fmap_cons, filter_cons.
    destruct (decide (is_completed t = v)) as [Hv|Hv].
    + rewrite decide_True by done.
      rewrite (decide_True (P := row_done (row_of t) = v)) by done.
      simpl. by rewrite IH.
    + rewrite decide_False by tauto.
      by rewrite (decide_False (P := row_done (row_of t) = v)).
  - rewrite decide_False by tauto. done.
Qed.

Lemma run_flags_ok es t : t ∈ tasks (app_db (run es startup)) → flag_ok t.
Proof.
  revert t.
  eapply (table_inv (λ d, ∀ t, t ∈ tasks d → flag_ok t));
    [|apply run_table|by intros t ?%elem_of_nil].
  intros d d' [Ht Hs|row Ht Hs Hid Hc Hi _|f Hf Ht Hs|P dec Ht Hs] H;
    rewrite Ht.
  - done.
  - intros t [?| ->%list_elem_of_singleton]%elem_of_app; [eauto|by left].
  - intros t' (t & -> & ?)%list_elem_of_fmap. apply Hf. eauto.
  - intros t [_ ?]%list_elem_of_filter. eauto.
Qed.

Lemma length_filter_two (l : list row) :
  (∀ r, r ∈ l → row_done r = 0 ∨ row_done r = 1) →
  Nat.add (length (filter (λ r, row_done r = 0) l))
          (length (filter (λ r, row_done r = 1) l)) = length l.
Proof.
  induction l as [|r l IH]; intros H; [done|].
  rewrite !filter_cons.
  assert (Nat.add (length (filter (λ r, row_done r = 0) l))
                  (length (filter (λ r, row_done r = 1) l)) = length l) as E
    by (apply IH; intros r' ?; apply H; by right).
  destruct (H r) as [Hr|Hr]; [by left|..]; rewrite Hr; simpl; lia.
Qed.

(** X5. In every state the application can reach, the two counts
    [list_active_tasks] returns are the number of incomplete and of
    completed rows among the rows it returns, and they add up to the number
    of rows. *)
Theorem listing_counts (es : list event) (retention_hours : Z)
    (now stamp : timestamp) :
  let out :=
    list_active_tasks retention_hours true now stamp
      (app_db (run es startup)) in
  ∃ rows active_count completed_count,
    out.2 = RowsCounts rows active_count completed_count
    ∧ active_count
      = Z.of_nat (length (filter (λ r, row_done r = 0) rows))
    ∧ completed_count
      = Z.of_nat (length (filter (λ r, row_done r = 1) rows))
    ∧ active_count + completed_count = Z.of_nat (length rows).
Proof.
  cbv zeta.
  set (d := app_db (run es startup)).
  set (out := list_active_tasks retention_hours true now stamp d).
  pose proof (list_active_tasks_counts retention_hours now stamp d) as Hout.
  cbv zeta in Hout. fold out in Hout.
  eexists _, _, _. split; [exact Hout|].
  rewrite !count_active_rows. split_and!; [done..|].
  rewrite <- Nat2Z.inj_add. f_equal. apply length_filter_two.
  intros r (t & Ht & _ & ->)%elem_of_select_active.
  assert (flag_ok t) as [[? _]|[? _]]; [|by left|by right].
  apply (run_flags_ok (es ++ [RefreshUi retention_hours now stamp])).
  unfold run. rewrite foldl_app. done.
Qed.

Lemma archive_ids_elem now (ids : list Z) d t' :
  t' ∈ tasks (archive_ids now ids d) → archived_at t' = None →
  t' ∈ tasks d ∧ tid t' ∉ ids.
Proof.
  intros (t & -> & Ht)%list_elem_of_fmap.
  destruct (bool_decide (tid t ∈ ids)) eqn:E; [done|].
  by apply bool_decide_eq_false in E.
Qed.

Lemma row_of_tid t t' : row_of t' = row_of t → tid t' = tid t.
Proof. unfold row_of. congruence. Qed.

Lemma listed_iff_fresh h rc now n2 d t :
  NoDup (tid <$> tasks d) → t ∈ tasks d → archived_at t = None →
  row_of t ∈ rows_of (list_active_tasks h rc now n2 d).2
  ↔ stale (now - hours h) (row_of t) = false.
Proof.
  intros Hnd Ht Ha. rewrite list_active_tasks_rows.
  assert (row_of t ∈ select_active d) as Hrow
    by (apply elem_of_select_active; eauto).
  unfold list_active_tasks.
  destruct (to_archive_of _ (select_active d)) as [|i ids] eqn:E.
  - assert ((let '(d0, rows) := (d, select_active d) in
             if rc then (d0, RowsCounts rows (count_active 0 d0)
                                        (count_active 1 d0))
             else (d0, Rows rows)).1 = d) as -> by by destruct rc.
    split; [|done]. intros _.
    destruct (stale _ (row_of t)) eqn:Hs; [|done].
    pose proof (to_archive_elem _ _ _ Hrow Hs) as Hin.
    rewrite E in Hin. by apply elem_of_nil in Hin.
  - rewrite <- E.
    set (ids' := to_archive_of (now - hours h) (select_active d)).
    assert ((let '(d0, rows) :=
               (archive_ids n2 ids' d, select_active (archive_ids n2 ids' d))
             in if rc then (d0, RowsCounts rows (count_active 0 d0)
                                           (count_active 1 d0))
                else (d0, Rows rows)).1 = archive_ids n2 ids' d) as ->
      by by destruct rc.
    split.
    + intros (t' & Ht' & Ha' & Hr)%elem_of_select_active.
      destruct (archive_ids_elem _ _ _ _ Ht' Ha') as [Hin Hnot].
      destruct (stale _ (row_of t)) eqn:Hs; [|done].
      destruct Hnot. rewrite (row_of_tid _ _ (eq_sym Hr)).
      apply (to_archive_elem _ _ _ Hrow Hs).
    + intros Hs. apply elem_of_select_active. exists t. split_and!; [|done..].
      apply list_elem_of_fmap. exists t. split; [|done].
      rewrite bool_decide_eq_false_2; [done|].
      intros (r & Hid & [Hst Hr]%list_elem_of_filter)%list_elem_of_fmap.
      apply elem_of_select_active in Hr as (t' & Ht' & _ & ->).
      assert (t' = t) as -> by (eapply tid_inj; eauto).
      congruence.
Qed.

(** X6. The retention boundary. Of the unarchived rows (ids pairwise
    distinct), [list_active_tasks] returns every row that is not completed,
    and a completed row exactly when its completion time is not before
    [now - retention_hours]: a row completed exactly at the cutoff is still
    listed, one completed a microsecond earlier is archived. *)
Theorem retention_boundary (retention_hours : Z) (return_counts : bool)
    (now stamp : timestamp) (d : db) (t : task) :
  NoDup (tid <$> tasks d) → t ∈ tasks d → archived_at t = None →
  let rows :=
    rows_of (list_active_tasks retention_hours return_counts now stamp d).2 in
  (is_completed t = 0 ∨ completed_at t = None → row_of t ∈ rows)
  ∧ ∀ c, is_completed t ≠ 0 → completed_at t = Some c →
         (row_of t ∈ rows ↔ now - hours retention_hours ≤ c).
Proof.
  intros Hnd Ht Ha rows. unfold rows. split.
  - intros H. apply listed_iff_fresh; [done..|].
    unfold stale, row_of. destruct (completed_at t); [|done].
    destruct H as [->|?]; done.
  - intros c H0 Hc. rewrite listed_iff_fresh by done.
    unfold stale, row_of. rewrite Hc.
    destruct (Z.eqb_spec (is_completed t) 0); [done|]. simpl.
    apply Z.ltb_ge.
Qed.

(** A case of the statement above: the note completed at 200 is listed
    when the cutoff is 200 and not when it is 201. *)
Lemma retention_boundary_witness :
  let t := {| tid := 1; email_uid := Some "5"; subject := "s"; snippet := "";
              task_text := "first"; created_at := 100;
              completed_at := Some 200; is_completed := 1;
              archived_at := None |} in
  (NoDup (tid <$> tasks db_done) ∧ t ∈ tasks db_done ∧ archived_at t = None)
  ∧ row_of t ∈ rows_of (list_active_tasks 12 true (200 + hours 12) 0 db_done).2
  ∧ row_of t ∉ rows_of (list_active_tasks 12 true (201 + hours 12) 0 db_done).2.
Proof.
  intros t.
  assert (NoDup (tid <$> tasks db_done)) as Hnd.
  { vm_compute. apply NoDup_cons. split; [|apply NoDup_singleton].
    by intros ?%list_elem_of_singleton. }
  assert (t ∈ tasks db_done) as Ht by (vm_compute; left).
  split; [by split_and!|].
  destruct (retention_boundary 12 true (200 + hours 12) 0 db_done t Hnd Ht
              eq_refl) as [_ H200].
  destruct (retention_boundary 12 true (201 + hours 12) 0 db_done t Hnd Ht
              eq_refl) as [_ H201].
  split.
  - apply (H200 200); [done..|lia].
  - intros H. apply (H201 200) in H; [lia|done..].
Defined.

End listing.

(** A case of X3: the archived note of message 5 through a refresh, an
    un-completion and another cycle. *)
Lemma archived_stays_archived_witness :
  let a1 := run events_archive_5 startup in
  let d2 := app_db (run [RefreshUi 12 0 0; Toggle 1 false 400;
                         Poll poller_plain world_A] a1) in
  (task_5_archived ∈ tasks (app_db a1) ∧ archived_at task_5_archived ≠ None)
  ∧ (∀ t', t' ∈ tasks d2 → tid t' = tid task_5_archived →
           archived_at t' ≠ None)
  ∧ ∀ r, r ∈ select_active d2 → r.1.1.1.1 ≠ tid task_5_archived.
Proof.
  assert (task_5_archived ∈ tasks (app_db (run events_archive_5 startup)))
    as Hin.
  { replace (tasks (app_db (run events_archive_5 startup)))
      with [task_5_archived] by (vm_compute; reflexivity). by left. }
  assert (archived_at task_5_archived ≠ None) as Ha by done.
  split; [by split|].
  exact (archived_stays_archived events_archive_5
           [RefreshUi 12 0 0; Toggle 1 false 400; Poll poller_plain world_A]
           task_5_archived Hin Ha).
Defined.

(* ===================================================================== *)
(** * Clear Completed, and commands on rows that are not there *)
(* ===================================================================== *)

Section commands_more.
Implicit Types (d : db) (t : task).

Lemma filter_fmap_none {A} (P : A → Prop) `{∀ x, Decision (P x)}
    (f : A → A) (l : list A) :
  (∀ x, ¬ P (f x)) → filter P (f <$> l) = [].
Proof.
  intros Hf. induction l as [|x l IH]; [done|].
  rewrite fmap_cons, filter_cons_False; auto.
Qed.

Lemma length_filter_fmap {A} (P : A → Prop) `{∀ x, Decision (P x)}
    (f : A → A) (l : list A) :
  (∀ x, P (f x) ↔ P x) →
  length (filter P (f <$> l)) = length (filter P l).
Proof.
  intros Hf. induction l as [|x l IH]; [done|].
  rewrite fmap_cons, !filter_cons.
  destruct (decide (P x)) as [Hx|Hx].
  - rewrite decide_True by by apply Hf. simpl. by rewrite IH.
  - rewrite decide_False by by rewrite Hf. done.
Qed.

Lemma fmap_fixed {A} (f : A → A) (l : list A) :
  (∀ x, x ∈ l → f x = x) → f <$> l = l.
Proof.
  intros Hf. induction l as [|x l IH]; [done|].
  rewrite fmap_cons, Hf, IH; [done| |by left].
  intros y ?. apply Hf. by right.
Qed.

Lemma filter_all {A} (P : A → Prop) `{∀ x, Decision (P x)} (l : list A) :
  (∀ x, x ∈ l → P x) → filter P l = l.
Proof.
  intros Hf. induction l as [|x l IH]; [done|].
  rewrite filter_cons_True, IH; [done| |apply Hf; by left].
  intros y ?. apply Hf. by right.
Qed.

Lemma set_tasks_fixed (g : list task → list task) d :
  g (tasks d) = tasks d → set_tasks g d = d.
Proof. destruct d. unfold set_tasks. simpl. by intros ->. Qed.

(** X7. "Clear Completed": [archive_all_completed_now] returns the number
    of completed rows that were still active, leaves no completed row
    active, leaves the number of active incomplete rows as it was, and a
    second call finds nothing: it returns 0 and changes nothing. *)
Theorem archive_all_completed_now_clears (now now' : timestamp) (d : db) :
  let out := archive_all_completed_now now d in
  out.2 = count_active 1 d
  ∧ count_active 1 out.1 = 0
  ∧ count_active 0 out.1 = count_active 0 d
  ∧ archive_all_completed_now now' out.1 = (out.1, 0).
Proof.
  cbv zeta. unfold archive_all_completed_now, count_active. cbn [fst snd].
  set (f := λ t : task,
         if bool_decide (archived_at t = None ∧ is_completed t = 1)
         then {| tid := tid t; email_uid := email_uid t; subject := subject t;
                 snippet := snippet t; task_text := task_text t;
                 created_at := created_at t; completed_at := completed_at t;
                 is_completed := is_completed t; archived_at := Some now |}
         else t).
  assert (∀ t, ¬ (archived_at (f t) = None ∧ is_completed (f t) = 1)) as H1.
  { intros t. unfold f. destruct (bool_decide _) eqn:E; simpl; [by intros []|].
    by apply bool_decide_eq_false in E. }
  assert (∀ t, (archived_at (f t) = None ∧ is_completed (f t) = 0)
               ↔ (archived_at t = None ∧ is_completed t = 0)) as H0.
  { intros t. unfold f. destruct (bool_decide _) eqn:E; simpl; [|done].
    apply bool_decide_eq_true in E as [_ E]. split; intros []; [done|lia]. }
  cbn [set_tasks tasks]. split_and!.
  - f_equal. f_equal. apply list_filter_iff. intros t.
    apply bool_decide_eq_true.
  - by rewrite filter_fmap_none.
  - by rewrite length_filter_fmap.
  - f_equal.
    + apply set_tasks_fixed. cbn [set_tasks tasks]. apply fmap_fixed.
      intros t' (t & -> & _)%list_elem_of_fmap.
      rewrite bool_decide_eq_false_2; [done|apply H1].
    + rewrite filter_fmap_none; [done|]. intros t.
      rewrite bool_decide_eq_true. apply H1.
Qed.

(** X8. A command on an id no row has changes nothing: toggling or
    deleting it leaves the database exactly as it was. *)
Theorem commands_on_missing_id (i : Z) (done : bool) (now : timestamp)
    (d : db) :
  (∀ t, t ∈ tasks d → tid t ≠ i) →
  mark_task_completed i done now d = d ∧ delete_task i d = d.
Proof.
  intros H. split; apply set_tasks_fixed.
  - apply fmap_fixed. intros t Ht. by rewrite bool_decide_eq_false_2 by eauto.
  - by apply filter_all.
Qed.

End commands_more.

(** A case of the statement above. *)
Lemma commands_on_missing_id_witness :
  (∀ t, t ∈ tasks db_done → tid t ≠ 7)
  ∧ mark_task_completed 7 true 500 db_done = db_done
  ∧ delete_task 7 db_done = db_done.
Proof.
  assert (∀ t, t ∈ tasks db_done → tid t ≠ 7) as H.
  { intros t Ht. vm_compute in Ht.
    repeat (apply elem_of_cons in Ht as [->|Ht]);
      [done|done|by apply elem_of_nil in Ht]. }
  split; [exact H|].
  exact (commands_on_missing_id 7 true 500 db_done H).
Defined.

(* ===================================================================== *)
(** * More on one cycle *)
(* ===================================================================== *)

Section sort_more.

Lemma insert_by_key_sorted x l :
  PyStr.int x.2 = Some x.1 →
  Forall (λ y, PyStr.int y.2 = Some y.1) l →
  StronglySorted keyed_le l → StronglySorted keyed_le (insert_by_key x l).
Proof.
  intros Hx. induction l as [|y l IH]; intros Hall Hs; simpl.
  - by repeat constructor.
  - apply Forall_cons in Hall as [Hy Hall].
    apply StronglySorted_inv in Hs as [Hs Hyl].
    destruct (Z.leb_spec x.1 y.1).
    + constructor; [by constructor|]. constructor; [done|].
      eapply Forall_impl; [exact Hyl|].
      intros z (? & _ & ?). split_and!; [lia|done..].
    + constructor; [by apply IH|].
      rewrite insert_by_key_perm. constructor; [|done].
      split_and!; [lia|done..].
Qed.

Lemma int_keys_good uids keys :
  int_keys uids = Some keys → Forall (λ y, PyStr.int y.2 = Some y.1) keys.
Proof.
  unfold int_keys. intros H%mapM_Some.
  induction H as [|u y l k Hu HF IH]; constructor; [|done].
  destruct (PyStr.int u) eqn:E; by simplify_eq/=.
Qed.

Lemma foldr_insert_sorted keys :
  Forall (λ y, PyStr.int y.2 = Some y.1) keys →
  StronglySorted keyed_le (foldr insert_by_key [] keys).
Proof.
  induction 1 as [|x l Hx Hall IH]; simpl; [constructor|].
  apply insert_by_key_sorted; [done| |done].
  by rewrite foldr_insert_perm.
Qed.

(** X9. [sorted(uids, key=int)]: when every identifier is an integer the
    result is a rearrangement of the input in ascending integer order; and
    it fails exactly when some identifier is no integer. *)
Theorem sorted_by_int_spec (uids : list string) :
  match sorted_by_int uids with
  | Some l => l ≡ₚ uids ∧ StronglySorted int_le l
  | None => ∃ u, u ∈ uids ∧ PyStr.int u = None
  end.
Proof.
  destruct (sorted_by_int uids) as [l|] eqn:E.
  - split; [by apply sorted_by_int_perm|].
    unfold sorted_by_int in E.
    destruct (int_keys uids) as [keys|] eqn:Ek; simplify_eq/=.
    eapply StronglySorted_fmap;
      [|apply foldr_insert_sorted, (int_keys_good _ _ Ek)].
    intros x y (? & ? & ?). by exists x.1, y.1.
  - unfold sorted_by_int, int_keys in E.
    destruct (mapM _ uids) eqn:Ek; [done|].
    apply mapM_None, Exists_exists in Ek as (u & Hu & Hn).
    exists u. split; [done|]. by destruct (PyStr.int u).
Qed.

Lemma sorted_by_int_fails uids u :
  u ∈ uids → PyStr.int u = None → sorted_by_int uids = None.
Proof.
  intros Hu Hn. unfold sorted_by_int, int_keys.
  rewrite (mapM_None_2 _ uids); [done|].
  apply Exists_exists. exists u. split; [done|]. by rewrite Hn.
Qed.

End sort_more.

Section cycle_more.
Context (self : GmailPoller) (w : world) (err : string) (d : db).

(** X10. One token of the search reply that [int] does not accept stops
    the cycle before any message is looked at: [check_mail] ends in the
    exception of the sort, with the database and [LAST_AI_ERROR] as they
    were and nothing reported. *)
Theorem malformed_id_aborts_cycle (query : string) (tokens : list string)
    (u : string) :
  reaches_search self w d query →
  w_search w query = SearchReply "OK" tokens →
  u ∈ tokens → PyStr.truthy u = true → PyStr.int u = None →
  check_mail self w err d
  = {| res_db := d; res_err := err; res_status := None; res_raised := true |}.
Proof.
  intros (ic & Hic & Hu & Hpw & Hc & Hq) Hs Hin Ht Hn.
  unfold check_mail, plan_of. rewrite Hic, Hu, Hpw, Hc, Hq, Hs.
  cbn [negb andb String.eqb Ascii.eqb Bool.eqb].
  assert (u ∈ filter (λ u, PyStr.truthy u = true) tokens) as Hf
    by by apply list_elem_of_filter.
  rewrite (sorted_by_int_fails _ u Hf Hn).
  destruct (filter _ tokens); [by apply elem_of_nil in Hf|done].
Qed.

(** X11. When the settings of section [imap] can all be read and the user
    name or the password is empty, the cycle does nothing: it hands
    ["IMAP OFF"] to the status callback (if one is installed) and returns,
    whatever the server would have answered; it ends in an exception only
    when the callback raises. *)
Theorem missing_credentials_imap_off (ic : imap_cfg) :
  read_imap (cfg self) = Some ic →
  ic_user ic = "" ∨ ic_pw ic = "" →
  check_mail self w err d
  = {| res_db := d; res_err := err;
       res_status := if status_callback self then Some "IMAP OFF" else None;
       res_raised := status_callback self && negb (w_callback w) |}.
Proof.
  intros Hic H. unfold check_mail, plan_of. rewrite Hic.
  assert (PyStr.truthy (ic_user ic) && PyStr.truthy (ic_pw ic) = false)
    as ->.
  { destruct H as [-> | ->]; [done|apply andb_false_r]. }
  cbn [negb]. unfold report, returned. by destruct (status_callback self).
Qed.

(** X12. A search the server does not answer with OK ends the cycle with
    no change: the cycle logs out and hands ["IMAP ERR"] to the status
    callback (if one is installed); it ends in an exception when the logout
    raises (nothing is reported then) or when the callback raises. *)
Theorem search_not_ok_imap_err (query typ : string) (tokens : list string) :
  reaches_search self w d query →
  w_search w query = SearchReply typ tokens →
  typ ≠ "OK" →
  check_mail self w err d
  = if w_logout w
    then {| res_db := d; res_err := err;
            res_status := if status_callback self
                          then Some "IMAP ERR" else None;
            res_raised := status_callback self && negb (w_callback w) |}
    else {| res_db := d; res_err := err; res_status := None;
            res_raised := true |}.
Proof.
  intros (ic & Hic & Hu & Hpw & Hc & Hq) Hs Ht.
  unfold check_mail, plan_of. rewrite Hic, Hu, Hpw, Hc, Hq, Hs.
  apply String.eqb_neq in Ht. rewrite Ht. cbn [negb andb].
  unfold logout_report, report, returned, raised.
  by destruct (w_logout w), (status_callback self).
Qed.

(** X13. A cycle never rewrites what is there: the rows of [tasks] it
    finds stay as they are and new rows come after them, [processed_uids]
    only grows, and of the metadata only the cursor can change. *)
Theorem check_mail_only_appends :
  let r := check_mail self w err d in
  tasks d `prefix_of` tasks (res_db r)
  ∧ processed_uids d ⊆ processed_uids (res_db r)
  ∧ ∀ k, k ≠ "last_uid" → metadata (res_db r) !! k = metadata d !! k.
Proof.
  cbv zeta. destruct (plan_of self w err d) as [r|uids lc start] eqn:Hp.
  - unfold check_mail. rewrite Hp. by apply plan_early in Hp as [-> _].
  - destruct (check_mail_go _ _ _ _ _ _ _ Hp) as (Ht & Hu & Hm & Hdb & _).
    cbv zeta in Ht, Hu, Hm, Hdb. rewrite Ht, Hu.
    set (st0 := {| ls_db := d; ls_err := err; max_seen_uid := start;
                   last_ai_mode := None; new_count := 0; dropped := 0 |}).
    split_and!.
    + unfold run_loop. fold st0.
      apply (loop_inv (cfg self) lc (w_ai w)
               (λ s, tasks d `prefix_of` tasks (ls_db s))); [|done].
      intros k u s _ Hs.
      destruct (loop_body_cases (cfg self) lc (w_ai w) (w_iter w k) u s)
        as (_ & _ & Hpass & _).
      destruct Hpass as [| |text subj snip now Hn]; [done..|].
      rewrite add_task_fresh by done.
      destruct (PyStr.truthy u); by apply prefix_app_r.
    + apply (loop_processed_mono (cfg self) lc (w_ai w) (w_iter w) uids st0).
    + intros k Hk. destruct Hdb as [-> | ->]; [by rewrite Hm|].
      cbn [save_metadata metadata].
      rewrite lookup_insert_ne by done. by rewrite Hm.
Qed.

(** X14. A cycle that ends in an exception other than one of [M.logout()]
    or of the status callback reports nothing and leaves the metadata, the
    cursor with them, exactly as they were: the next cycle searches from
    the same place. The metadata of a cycle that ends in an exception
    differ from before only when its loop ran to the end: the cursor is
    saved before the logout and the callback, so an exception of these two
    comes after the save. *)
Theorem raised_cycle_keeps_cursor :
  let r := check_mail self w err d in
  res_raised r = true →
  (w_logout w = true → w_callback w = true →
   res_status r = None
   ∧ metadata (res_db r) = metadata d
   ∧ cursor (res_db r) = cursor d)
  ∧ (metadata (res_db r) ≠ metadata d →
     ∃ uids lc start st,
       plan_of self w err d = Go uids lc start
       ∧ run_loop self w err d uids lc start = (st, Next)
       ∧ (w_logout w = false ∨ w_callback w = false)
       ∧ res_db r
         = save_metadata "last_uid" (PyStr.str (max_seen_uid st)) (ls_db st)).
Proof.
  cbv zeta. intros Hr.
  destruct (plan_of self w err d) as [r|uids lc start] eqn:Hp.
  { assert (check_mail self w err d = r) as E
      by (unfold check_mail; by rewrite Hp).
    rewrite E in *. pose proof (plan_early _ _ _ _ _ Hp) as [Hdb _].
    rewrite Hdb. split; [|done]. intros Hlo Hcb. split_and!; [|done..].
    clear E Hdb.
    unfold plan_of, logout_report, report, returned, raised in Hp.
    rewrite Hlo, Hcb in Hp. repeat case_match; by simplify_eq/=. }
  destruct (check_mail_go _ _ _ _ _ _ _ Hp) as (_ & _ & Hm & _).
  cbv zeta in Hm.
  destruct (run_loop self w err d uids lc start) as [st fl] eqn:Hl.
  destruct fl.
  - destruct (check_mail_next _ _ _ _ _ _ _ _ Hp Hl) as (Hdb & _ & Hs & Hx).
    cbv zeta in Hdb, Hs, Hx. rewrite Hr in Hx. split.
    + intros Hlo Hcb. rewrite Hlo, Hcb in Hx. by case_match.
    + intros _. exists uids, lc, start, st. split_and!; [done..| |done].
      destruct (w_logout w); [right|by left].
      destruct (w_callback w); [by case_match|done].
  - rewrite (check_mail_raise _ _ _ _ _ _ _ _ Hp Hl). cbn [raised res_db res_status].
    cbn [fst] in Hm. split; [|done].
    intros _ _. split_and!; [done..|by apply cursor_metadata].
Qed.

End cycle_more.

(** Cases of X10, X11, X12 and X14. *)
Lemma malformed_id_aborts_cycle_witness :
  (reaches_search poller_plain world_bad_id ensure_db "(UID 1:*)"
   ∧ w_search world_bad_id "(UID 1:*)" = SearchReply "OK" ["5"; "x7"]
   ∧ "x7" ∈ ["5"; "x7"] ∧ PyStr.truthy "x7" = true ∧ PyStr.int "x7" = None)
  ∧ check_mail poller_plain world_bad_id "" ensure_db
    = {| res_db := ensure_db; res_err := ""; res_status := None;
         res_raised := true |}.
Proof.
  assert (reaches_search poller_plain world_bad_id ensure_db "(UID 1:*)")
    as H.
  { eexists. split_and!; vm_compute; reflexivity. }
  assert ("x7" ∈ ["5"; "x7"]) as Hin by (right; left).
  split; [by split_and!|].
  exact (malformed_id_aborts_cycle poller_plain world_bad_id "" ensure_db
           "(UID 1:*)" ["5"; "x7"] "x7" H eq_refl Hin eq_refl eq_refl).
Defined.

Lemma missing_credentials_imap_off_witness :
  (read_imap (cfg poller_no_creds)
   = Some {| ic_user := "me@example.org"; ic_pw := ""; ic_cutoff := "";
             ic_mark_as_read := false |}
   ∧ ic_pw {| ic_user := "me@example.org"; ic_pw := ""; ic_cutoff := "";
              ic_mark_as_read := false |} = "")
  ∧ check_mail poller_no_creds world_A "" ensure_db
    = {| res_db := ensure_db; res_err := ""; res_status := Some "IMAP OFF";
         res_raised := false |}.
Proof.
  assert (read_imap (cfg poller_no_creds)
          = Some {| ic_user := "me@example.org"; ic_pw := ""; ic_cutoff := "";
                    ic_mark_as_read := false |}) as H
    by (vm_compute; reflexivity).
  split; [by split|].
  exact (missing_credentials_imap_off poller_no_creds world_A "" ensure_db
           _ H (or_intror eq_refl)).
Defined.

Lemma search_not_ok_imap_err_witness :
  (reaches_search poller_plain world_search_no ensure_db "(UID 1:*)"
   ∧ w_search world_search_no "(UID 1:*)" = SearchReply "NO" []
   ∧ "NO" ≠ "OK")
  ∧ check_mail poller_plain world_search_no "" ensure_db
    = {| res_db := ensure_db; res_err := ""; res_status := Some "IMAP ERR";
         res_raised := false |}.
Proof.
  assert (reaches_search poller_plain world_search_no ensure_db "(UID 1:*)")
    as H.
  { eexists. split_and!; vm_compute; reflexivity. }
  assert ("NO" ≠ "OK") as Hne by done.
  split; [by split_and!|].
  exact (search_not_ok_imap_err poller_plain world_search_no "" ensure_db
           "(UID 1:*)" "NO" [] H eq_refl Hne).
Defined.

Lemma raised_cycle_keeps_cursor_witness :
  let r := check_mail poller_plain world_7_raises "" ensure_db in
  res_raised r = true
  ∧ (w_logout world_7_raises = true → w_callback world_7_raises = true →
     res_status r = None
     ∧ metadata (res_db r) = metadata ensure_db
     ∧ cursor (res_db r) = cursor ensure_db)
  ∧ (metadata (res_db r) ≠ metadata ensure_db →
     ∃ uids lc start st,
       plan_of poller_plain world_7_raises "" ensure_db = Go uids lc start
       ∧ run_loop poller_plain world_7_raises "" ensure_db uids lc start
         = (st, Next)
       ∧ (w_logout world_7_raises = false ∨ w_callback world_7_raises = false)
       ∧ res_db r
         = save_metadata "last_uid" (PyStr.str (max_seen_uid st)) (ls_db st)).
Proof.
  assert (res_raised (check_mail poller_plain world_7_raises "" ensure_db)
          = true) as Hr by (vm_compute; reflexivity).
  split; [exact Hr|].
  exact (raised_cycle_keeps_cursor poller_plain world_7_raises ""
           ensure_db Hr).
Defined.

(** The cursor is saved before the logout: this cycle stores 5 and 7 and
    ends in the exception of [M.logout()], with the cursor at 7. *)
Lemma logout_raises_after_save :
  let r := check_mail poller_plain world_logout_raises "" ensure_db in
  res_raised r = true
  ∧ res_status r = None
  ∧ length (tasks (res_db r)) = 2%nat
  ∧ cursor (res_db r) = Some 7.
Proof. split_and!; vm_compute; reflexivity. Qed.

(** A password that cannot be read ends the cycle at line 318, before the
    test of the credentials; a [classify_before_add] that cannot be read
    counts as on. *)
Lemma unreadable_options :
  check_mail {| cfg := cfg_per_cent; status_callback := true |} world_A ""
    ensure_db
  = raised ensure_db ""
  ∧ get_bool cfg_per_cent "ai" "classify_before_add" true = true.
Proof. split; vm_compute; reflexivity. Qed.

(* ===================================================================== *)
(** * A cycle in which every fetch succeeds *)
(* ===================================================================== *)

Section all_fetched.
Context (cfg : config) (lc : loop_cfg) (ai : ai_env).
Implicit Types (st : loop_state) (u : string) (iw : iter_world).





End all_fetched.



(* ===================================================================== *)
(** * More on the adapters and the configuration *)
(* ===================================================================== *)

Section adapters_more.
Implicit Types (l : list ascii) (p : ascii → bool) (s : string).

Lemma heuristic_summary_is_tidy text (max_len : Z) :
  0 ≤ max_len → tidy max_len (heuristic_summary text max_len).
Proof.
  intros Hn. unfold heuristic_summary.
  destruct (heuristic_summary_loop _ _) as [r|] eqn:E.
  - by apply (heuristic_summary_loop_tidy _ _ _ Hn E).
  - split_and!.
    + by apply rstrip_slice_length.
    + intros H%rstrip_slice_elem. by apply replace_nl_elem in H.
    + apply rstrip_last.
Qed.

Lemma strip_length s : (String.length (PyStr.strip s) ≤ String.length s)%nat.
Proof.
  unfold PyStr.strip. rewrite <- !length_chars, chars_str_of.
  etrans; [apply prefix_length, rstrip_by_prefix|].
  apply suffix_length, drop_while_suffix.
Qed.

Lemma strip_last s c :
  last (PyStr.chars (PyStr.strip s)) = Some c → PyStr.isspace c = false.
Proof. unfold PyStr.strip. rewrite chars_str_of. apply rstrip_by_last. Qed.

Lemma slice_to_length s (n : Z) :
  0 ≤ n → Z.of_nat (String.length (PyStr.slice_to s n)) ≤ n.
Proof.
  intros Hn. unfold PyStr.slice_to. simpl.
  destruct (Z.leb_spec 0 n); [|lia].
  rewrite <- length_chars, chars_str_of, length_take. lia.
Qed.

(** X16. Whatever the remote service returns, the sentence [llm_summary]
    hands back has at most [max_len] characters (for [max_len >= 0]) and
    does not end in whitespace. *)
Theorem llm_summary_bounded (text subject : string) (api_key : option string)
    (max_len : Z) (env : ai_env) (reply : remote_reply) (err : string) :
  0 ≤ max_len →
  let sentence :=
    (llm_summary text subject api_key max_len env reply err).1.1 in
  Z.of_nat (String.length sentence) ≤ max_len
  ∧ ∀ c, last (PyStr.chars sentence) = Some c → PyStr.isspace c = false.
Proof.
  intros Hn. cbv zeta.
  destruct (heuristic_summary_is_tidy text max_len Hn) as (Hlen & _ & Hlast).
  unfold llm_summary.
  destruct (sdk_importable env); cbn [negb fst]; [|done].
  destruct (PyStr.truthy (effective_key api_key env)); cbn [negb fst]; [|done].
  destruct reply as [e|[content|]]; cbn [fst]; [done| |done].
  unfold PyStr.or_else.
  destruct (PyStr.truthy (PyStr.strip _)) eqn:E; [|done]. split.
  - pose proof (strip_length
      (PyStr.slice_to (PyStr.re_trim_nonword (PyStr.strip content)) max_len)).
    pose proof (slice_to_length
      (PyStr.re_trim_nonword (PyStr.strip content)) max_len Hn). lia.
  - apply strip_last.
Qed.

(** X17. [ai_classify_label] returns one of the three labels; a label
    other than "actionable" comes only from an answer of the remote service
    (mode ON); and [LAST_AI_ERROR] changes only when the remote call raised
    (mode FALLBACK). *)
Theorem classify_label_range (text subject : string)
    (api_key : option string) (env : ai_env) (reply : remote_reply)
    (err : string) :
  ∃ label mode err',
    ai_classify_label text subject api_key env reply err = (label, mode, err')
    ∧ label ∈ ["actionable"; "fyi"; "marketing"]
    ∧ mode ∈ ["ON"; "OFF"; "FALLBACK"]
    ∧ (label ≠ "actionable" → mode = "ON")
    ∧ (mode ≠ "FALLBACK" → err' = err).
Proof.
  unfold ai_classify_label.
  destruct (sdk_importable env); cbn [negb].
  2: { eexists _, _, _. split; [done|]. split_and!; [set_solver..|done|done]. }
  destruct (PyStr.truthy (effective_key api_key env)); cbn [negb].
  2: { eexists _, _, _. split; [done|]. split_and!; [set_solver..|done|done]. }
  destruct reply as [e|content].
  { eexists _, _, _. split; [done|]. split_and!; [set_solver..|done|done]. }
  eexists _, _, _. split; [done|].
  destruct (PyStr.contains "market" _); [|destruct (PyStr.contains "fyi" _)];
    split_and!; try done; set_solver.
Qed.

(** X18. An option that is not in the configuration file reads as the
    fallback: [get_bool] goes through [str(fallback)], which it parses back
    to the same boolean. *)
Theorem get_bool_missing_option (cfg : config) (section option_ : string)
    (fallback : bool) :
  cfg !! (section, option_) = None →
  get_bool cfg section option_ fallback = fallback.
Proof.
  intros H. unfold get_bool, cfg_get. rewrite H. by destruct fallback.
Qed.

Lemma lower_length s : String.length (PyStr.lower s) = String.length s.
Proof.
  unfold PyStr.lower. by rewrite <- !length_chars, chars_str_of, length_map.
Qed.

Lemma truthy_length s : PyStr.truthy s = true ↔ (0 < String.length s)%nat.
Proof. destruct s; simpl; split; (done || lia). Qed.

(** X19. The drop set built from [drop_labels] holds, for every
    comma-separated piece that is not blank, the piece stripped and in
    lower case, and nothing else; in particular never the empty label. *)
Theorem drop_set_of_labels (drop_labels_csv : string) (x : string) :
  (x ∈ drop_set_of drop_labels_csv ↔
   ∃ y, y ∈ PyStr.split "," drop_labels_csv
        ∧ PyStr.strip y ≠ "" ∧ x = PyStr.lower (PyStr.strip y))
  ∧ "" ∉ drop_set_of drop_labels_csv.
Proof.
  assert (∀ s, PyStr.truthy s = true ↔ s ≠ "") as Ht by by intros [].
  assert (∀ z, z ∈ drop_set_of drop_labels_csv ↔
     ∃ y, y ∈ PyStr.split "," drop_labels_csv
          ∧ PyStr.strip y ≠ "" ∧ z = PyStr.lower (PyStr.strip y)) as H.
  { intros z. unfold drop_set_of.
    rewrite elem_of_list_to_set, list_elem_of_fmap. split.
    - intros (y & -> & [Hy ?]%list_elem_of_filter). exists y.
      split_and!; [done| |done]. by apply Ht.
    - intros (y & ? & Hy & ->). exists y. split; [done|].
      apply list_elem_of_filter. split; [|done]. by apply Ht. }
  split; [apply H|].
  intros (y & _ & Hy & E)%H. apply Hy.
  assert (String.length (PyStr.strip y) = 0%nat) as E0
    by by rewrite <- lower_length, <- E.
  by destruct (PyStr.strip y).
Qed.

(** X20. The cursor survives its trip through the metadata table: the
    number [check_mail] saves as text is the number the next cycle reads,
    and that cycle searches from the number after it. *)
Theorem cursor_round_trip (z : Z) (d : db) :
  let d' := save_metadata "last_uid" (PyStr.str z) d in
  cursor d' = Some z
  ∧ query_of (get_metadata "last_uid" "0" d') ""
    = Some ("(UID " +:+ PyStr.str (z + 1) +:+ ":*)").
Proof.
  cbv zeta. split; [apply cursor_saved|].
  unfold get_metadata. cbn [save_metadata metadata].
  rewrite lookup_insert_eq.
  change (default "0" (Some (PyStr.str z))) with (PyStr.str z).
  unfold query_of. by rewrite truthy_str, int_str.
Qed.

End adapters_more.

(** A case of X16 and one of X18. *)
Lemma llm_summary_bounded_witness :
  let sentence :=
    (llm_summary "body" "subject" (Some "sk-test") 10
       {| sdk_importable := true; env_api_key := "" |}
       (RemoteContent (Some "  Reply to Bob about the order.  ")) "").1.1 in
  0 ≤ 10
  ∧ Z.of_nat (String.length sentence) ≤ 10
  ∧ ∀ c, last (PyStr.chars sentence) = Some c → PyStr.isspace c = false.
Proof.
  assert (0 ≤ 10) as H by lia.
  split; [exact H|].
  exact (llm_summary_bounded "body" "subject" (Some "sk-test") 10
           {| sdk_importable := true; env_api_key := "" |}
           (RemoteContent (Some "  Reply to Bob about the order.  ")) "" H).
Defined.

Lemma get_bool_missing_option_witness :
  cfg_plain !! ("imap", "mark_as_read") = None
  ∧ get_bool cfg_plain "imap" "mark_as_read" false = false.
Proof.
  assert (cfg_plain !! ("imap", "mark_as_read") = None) as H
    by (vm_compute; reflexivity).
  split; [exact H|].
  exact (get_bool_missing_option cfg_plain "imap" "mark_as_read" false H).
Defined.

(* ===================================================================== *)
(** * The heuristic summary skips quoted lines *)
(* ===================================================================== *)

Section quoted.
Implicit Types (l : list ascii) (p : ascii → bool) (s : string) (c : ascii).

Lemma drop_while_snoc_keep p c l :
  p c = false →
  PyStr.drop_while p (l ++ [c]) = PyStr.drop_while p l ++ [c].
Proof.
  intros Hc. induction l as [|x l IH]; simpl; [by rewrite Hc|].
  by destruct (p x).
Qed.

Lemma rstrip_by_cons_keep p c l :
  p c = false → PyStr.rstrip_by p (c :: l) = c :: PyStr.rstrip_by p l.
Proof.
  intros Hc. unfold PyStr.rstrip_by.
  by rewrite reverse_cons, drop_while_snoc_keep, reverse_snoc.
Qed.

(** A stripped string that is not empty starts with a character that is
    no whitespace. *)
Lemma strip_head s :
  PyStr.truthy (PyStr.strip s) = true →
  ∃ c rest, PyStr.chars (PyStr.strip s) = c :: rest
            ∧ PyStr.isspace c = false.
Proof.
  unfold PyStr.strip. rewrite chars_str_of.
  set (l1 := PyStr.lstrip_by PyStr.isspace (PyStr.chars s)).
  destruct (PyStr.rstrip_by PyStr.isspace l1) as [|c rest] eqn:E; [done|].
  intros _. exists c, rest. split; [done|].
  pose proof (rstrip_by_prefix PyStr.isspace l1) as Hp. rewrite E in Hp.
  destruct l1 as [|c1 l1'] eqn:E1; [by apply prefix_nil_inv in Hp|].
  apply prefix_cons_inv_1 in Hp as ->.
  apply (drop_while_head PyStr.isspace (PyStr.chars s)).
  unfold l1, PyStr.lstrip_by in E1. by rewrite E1.
Qed.

Lemma chars_cons s c rest :
  PyStr.chars s = c :: rest → s = String c (PyStr.str_of rest).
Proof.
  intros E. rewrite <- (string_of_list_ascii_of_string s), E. done.
Qed.

(** The first characters survive the collapsing, the cut and the
    right-strip. *)
Lemma summary_of_line_head s c rest (max_len : Z) :
  1 ≤ max_len → PyStr.chars s = c :: rest → PyStr.isspace c = false →
  ∃ rest',
    PyStr.chars
      (PyStr.rstrip (PyStr.slice_to (PyStr.re_sub_ws s) max_len))
    = c :: rest'.
Proof.
  intros Hn E Hc. unfold PyStr.rstrip, PyStr.slice_to, PyStr.re_sub_ws.
  rewrite E. cbn [PyStr.collapse_ws]. rewrite Hc, !chars_str_of.
  destruct (Z.leb_spec 0 max_len); [|lia].
  destruct (Z.to_nat max_len) as [|m] eqn:Em; [lia|].
  rewrite chars_str_of. cbn [take].
  rewrite rstrip_by_cons_keep by done. eauto.
Qed.

Lemma heuristic_summary_loop_first (lines : list string) (max_len : Z) :
  (∃ line, line ∈ lines ∧ content_line line) →
  ∃ line0, line0 ∈ lines ∧ content_line line0
    ∧ heuristic_summary_loop lines max_len
      = Some (PyStr.rstrip
                (PyStr.slice_to (PyStr.re_sub_ws (PyStr.strip line0))
                                max_len)).
Proof.
  induction lines as [|x lines IH]; intros (line & Hin & Hc).
  { by apply elem_of_nil in Hin. }
  cbn [heuristic_summary_loop].
  destruct (PyStr.truthy (PyStr.strip x)) eqn:Ht;
    [destruct (PyStr.startswith (PyStr.strip x) ">") eqn:Hs|]; cbn [andb negb].
  - destruct IH as (line0 & ? & ? & ?).
    { exists line. split; [|done].
      apply elem_of_cons in Hin as [->|?]; [|done].
      destruct Hc as [_ Hc]. congruence. }
    exists line0. split; [by right|done].
  - exists x. split; [by left|]. by split.
  - destruct IH as (line0 & ? & ? & ?).
    { exists line. split; [|done].
      apply elem_of_cons in Hin as [->|?]; [|done].
      destruct Hc as [Hc _]. congruence. }
    exists line0. split; [by right|done].
Qed.

(** X21. Quoted and blank lines are skipped: when the body has a line that
    is neither blank nor starts (after stripping) with [>], the heuristic
    summary (for [max_len >= 1]) is not empty and starts with a character
    that is neither whitespace nor [>]. *)
Theorem heuristic_summary_skips_quotes (text line : string) (max_len : Z) :
  1 ≤ max_len →
  line ∈ PyStr.splitlines text → content_line line →
  ∃ c rest,
    PyStr.chars (heuristic_summary text max_len) = c :: rest
    ∧ PyStr.isspace c = false ∧ c ≠ ">"%char.
Proof.
  intros Hn Hin Hc. unfold heuristic_summary.
  destruct (heuristic_summary_loop_first (PyStr.splitlines text) max_len)
    as (line0 & _ & [Ht Hs] & ->); [by exists line|].
  destruct (strip_head line0 Ht) as (c & rest & E & Hsp).
  destruct (summary_of_line_head _ c rest max_len Hn E Hsp) as [rest' ->].
  exists c, rest'. split_and!; [done..|].
  intros ->. apply chars_cons in E. rewrite E in Hs.
  unfold PyStr.startswith in Hs.
  by destruct (string_of_list_ascii rest).
Qed.

End quoted.

(** A case of the statement above. *)
Lemma heuristic_summary_skips_quotes_witness :
  (1 ≤ 140
   ∧ "Thanks, will do." ∈ PyStr.splitlines
       ("> Can you send it?" +:+ nl +:+ nl +:+ "Thanks, will do.")
   ∧ content_line "Thanks, will do.")
  ∧ ∃ c rest,
      PyStr.chars
        (heuristic_summary
           ("> Can you send it?" +:+ nl +:+ nl +:+ "Thanks, will do.") 140)
      = c :: rest
      ∧ PyStr.isspace c = false ∧ c ≠ ">"%char.
Proof.
  assert (1 ≤ 140) as Hn by lia.
  assert ("Thanks, will do." ∈ PyStr.splitlines
            ("> Can you send it?" +:+ nl +:+ nl +:+ "Thanks, will do."))
    as Hin by (vm_compute; right; right; left).
  assert (content_line "Thanks, will do.") as Hc
    by (split; vm_compute; reflexivity).
  split; [by split_and!|].
  exact (heuristic_summary_skips_quotes
           ("> Can you send it?" +:+ nl +:+ nl +:+ "Thanks, will do.")
           "Thanks, will do." 140 Hn Hin Hc).
Defined.

(* ===================================================================== *)
(** * More on the life of a store *)
(* ===================================================================== *)

Section store_more.
Implicit Types (d : db) (t : task) (a : app) (es : list event).

(** X22. Membership in [processed_uids] is permanent: no cycle and no
    command of the window ever takes an identifier out. *)
Theorem processed_uids_permanent (es : list event) (a : app) (u : string) :
  u ∈ processed_uids (app_db a) →
  u ∈ processed_uids (app_db (run es a)).
Proof. intros H. by apply run_records. Qed.

(** X23. In every state the application can reach, the completion columns
    of every row agree: [is_completed] is 0 and [completed_at] is NULL, or
    [is_completed] is 1 and [completed_at] is set. *)
Theorem completion_columns_agree (es : list event) (t : task) :
  t ∈ tasks (app_db (run es startup)) →
  (is_completed t = 0 ∧ completed_at t = None)
  ∨ (is_completed t = 1 ∧ is_Some (completed_at t)).
Proof. apply run_flags_ok. Qed.

(** X24. Ticking a note and un-ticking it again leaves no trace: when the
    rows with id [i] are open, completing and then un-completing [i] gives
    back the database as it was, completion time cleared. *)
Theorem toggle_round_trip (i : Z) (now now' : timestamp) (d : db) :
  (∀ t, t ∈ tasks d → tid t = i →
        is_completed t = 0 ∧ completed_at t = None) →
  mark_task_completed i false now' (mark_task_completed i true now d) = d.
Proof.
  intros H. unfold mark_task_completed, set_tasks.
  cbn [tasks tasks_seq metadata processed_uids].
  destruct d as [l sq md pu]. cbn [tasks] in *. f_equal.
  rewrite <- list_fmap_compose. apply fmap_fixed.
  intros t Ht. cbn [compose].
  destruct (bool_decide (tid t = i)) eqn:E; cbn [tid].
  - rewrite E. apply bool_decide_eq_true in E.
    destruct (H t Ht E) as [H1 H2]. destruct t. simpl in *. by subst.
  - by rewrite E.
Qed.

(** X25. The newest note is on top: in every state the application can
    reach, a note added by hand is the first row of the next listing. *)
Theorem newest_note_on_top (es : list event) (text subj snip : string)
    (now : timestamp) :
  let d := app_db (run es startup) in
  let out := add_task text subj snip None now d in
  out.2 = true
  ∧ processed_uids out.1 = processed_uids d
  ∧ head (select_active out.1) = Some (tasks_seq d + 1, text, 0, None, subj).
Proof.
  cbv zeta. set (d := app_db (run es startup)).
  unfold add_task. cbn [uid_truthy andb fst snd]. split_and!; [done..|].
  set (r0 := (tasks_seq d + 1, text, 0, @None timestamp, subj)).
  set (d' := insert_task text subj snip None now d).
  assert (r0 ∈ select_active d') as Hr0.
  { apply elem_of_select_active.
    exists {| tid := tasks_seq d + 1; email_uid := None; subject := subj;
              snippet := snip; task_text := text; created_at := now;
              completed_at := None; is_completed := 0;
              archived_at := None |}.
    split_and!; [|done|done].
    cbn [d' insert_task tasks]. apply elem_of_app. right. by left. }
  pose proof (StronglySorted_merge_sort row_before
    (Transitive0 := row_before_trans) (Total0 := row_before_total)
    (row_of <$> filter (λ t, archived_at t = None) (tasks d'))) as Hs.
  fold (select_active d') in Hs.
  destruct (select_active d') as [|h S'] eqn:E; [by apply elem_of_nil in Hr0|].
  cbn [head]. f_equal.
  apply elem_of_cons in Hr0 as [->|Hin]; [done|].
  apply StronglySorted_inv in Hs as [_ Hall].
  rewrite Forall_forall in Hall. specialize (Hall _ Hin).
  assert (h ∈ select_active d') as Hh by (rewrite E; left).
  apply elem_of_select_active in Hh as (t & Ht & _ & ->).
  cbn [d' insert_task tasks] in Ht.
  apply elem_of_app in Ht as [Ht| ->%list_elem_of_singleton]; [|done].
  exfalso.
  destruct (run_ids_ok es) as [Hle _]. specialize (Hle t Ht). fold d in Hle.
  pose proof (run_flags_ok es t Ht) as Hf.
  unfold row_before, row_of, r0 in Hall.
  destruct Hf as [[? _]|[? _]]; lia.
Qed.

End store_more.

(** Cases of X22, X23 and X24. *)
Lemma processed_uids_permanent_witness :
  let a := run [Poll poller_plain world_5] startup in
  "5" ∈ processed_uids (app_db a)
  ∧ "5" ∈ processed_uids
            (app_db (run [DeleteTask 1; Poll poller_plain world_A] a)).
Proof.
  assert ("5" ∈ processed_uids
                  (app_db (run [Poll poller_plain world_5] startup))) as H.
  { apply is_uid_processed_true. vm_compute. reflexivity. }
  split; [exact H|].
  exact (processed_uids_permanent [DeleteTask 1; Poll poller_plain world_A]
           (run [Poll poller_plain world_5] startup) "5" H).
Defined.

Lemma completion_columns_agree_witness :
  task_5_archived ∈ tasks (app_db (run events_archive_5 startup))
  ∧ ((is_completed task_5_archived = 0 ∧ completed_at task_5_archived = None)
     ∨ (is_completed task_5_archived = 1
        ∧ is_Some (completed_at task_5_archived))).
Proof.
  assert (task_5_archived ∈ tasks (app_db (run events_archive_5 startup)))
    as Hin.
  { replace (tasks (app_db (run events_archive_5 startup)))
      with [task_5_archived] by (vm_compute; reflexivity). by left. }
  split; [exact Hin|].
  exact (completion_columns_agree events_archive_5 task_5_archived Hin).
Defined.

Lemma toggle_round_trip_witness :
  (∀ t, t ∈ tasks db_done → tid t = 2 →
        is_completed t = 0 ∧ completed_at t = None)
  ∧ mark_task_completed 2 false 700 (mark_task_completed 2 true 600 db_done)
    = db_done.
Proof.
  assert (∀ t, t ∈ tasks db_done → tid t = 2 →
               is_completed t = 0 ∧ completed_at t = None) as H.
  { intros t Ht. vm_compute in Ht.
    repeat (apply elem_of_cons in Ht as [->|Ht]);
      [done|done|by apply elem_of_nil in Ht]. }
  split; [exact H|].
  exact (toggle_round_trip 2 600 700 db_done H).
Defined.

(* ===================================================================== *)
(** * A cycle over identifiers that are all processed *)
(* ===================================================================== *)

Section skip.
Context (cfg : config) (lc : loop_cfg) (ai : ai_env).

Lemma sorted_by_int_ints uids l :
  sorted_by_int uids = Some l → Forall (λ u, is_Some (PyStr.int u)) l.
Proof.
  unfold sorted_by_int.
  destruct (int_keys uids) as [keys|] eqn:E; [|done]. intros [= <-].
  apply Forall_fmap. rewrite foldr_insert_perm.
  eapply Forall_impl; [apply (int_keys_good _ _ E)|].
  intros x Hx. simpl. by rewrite Hx.
Qed.

Lemma loop_skip iter uids k st :
  Forall (λ u, u ∈ processed_uids (ls_db st) ∧ is_Some (PyStr.int u)) uids →
  ∃ st', loop cfg lc ai iter k uids st = (st', Next)
    ∧ ls_db st' = ls_db st ∧ ls_err st' = ls_err st
    ∧ last_ai_mode st' = last_ai_mode st
    ∧ max_seen_uid st ≤ max_seen_uid st'
    ∧ ∀ u, u ∈ uids → ∃ n, PyStr.int u = Some n ∧ n ≤ max_seen_uid st'.
Proof.
  revert k st. induction uids as [|u uids IH]; intros k st Hall.
  { exists st. split_and!; [done..|lia|]. by intros u ?%elem_of_nil. }
  apply Forall_cons in Hall as [[Hu [n Hn]] Hall].
  cbn [loop]. unfold loop_body.
  rewrite (proj2 (is_uid_processed_true u (ls_db st)) Hu).
  unfold bump. rewrite Hn.
  set (st1 := {| ls_db := ls_db st; ls_err := ls_err st;
                 max_seen_uid := Z.max (max_seen_uid st) n;
                 last_ai_mode := last_ai_mode st;
                 new_count := new_count st; dropped := dropped st |}).
  destruct (IH (S k) st1 Hall) as (st' & -> & Hd & He & Hm & Hle & Hmax).
  exists st'. split_and!; [done..| |].
  - cbn [st1 max_seen_uid] in Hle. lia.
  - intros u' [->|?]%elem_of_cons; [|eauto].
    exists n. split; [done|]. cbn [st1 max_seen_uid] in Hle. lia.
Qed.

End skip.

(** X26. The idempotent skip: a cycle whose identifiers are all in
    [processed_uids] already fetches nothing and creates nothing -- rows,
    processed set and [LAST_AI_ERROR] stay as they are, no status is
    reported -- and still moves the cursor up to the largest of them. It
    ends in an exception only when the logout, which comes after the cursor
    is saved, raises. *)
Theorem all_processed_cycle_skips (self : GmailPoller) (w : world)
    (err : string) (d : db) (uids : list string) (lc : loop_cfg) (start : Z) :
  plan_of self w err d = Go uids lc start →
  (∀ u, u ∈ uids → u ∈ processed_uids d) →
  let r := check_mail self w err d in
  res_raised r = negb (w_logout w) ∧ res_status r = None ∧ res_err r = err
  ∧ tasks (res_db r) = tasks d
  ∧ processed_uids (res_db r) = processed_uids d
  ∧ ∃ c, cursor (res_db r) = Some c ∧ start ≤ c
         ∧ ∀ u, u ∈ uids → ∃ n, PyStr.int u = Some n ∧ n ≤ c.
Proof.
  intros Hp Hall. cbv zeta.
  assert (Forall (λ u, is_Some (PyStr.int u)) uids) as Hints.
  { revert Hp. unfold plan_of. intros Hp.
    repeat case_match; simplify_eq/=; by eapply sorted_by_int_ints. }
  set (st0 := {| ls_db := d; ls_err := err; max_seen_uid := start;
                 last_ai_mode := None; new_count := 0; dropped := 0 |}).
  destruct (loop_skip (cfg self) lc (w_ai w) (w_iter w) uids 0 st0)
    as (st' & Hl & Hd & He & Hm & Hle & Hmax).
  { apply Forall_forall. intros u Hu. split; [by apply Hall|].
    by eapply Forall_forall in Hints. }
  destruct (check_mail_next self w err d uids lc start st' Hp Hl)
    as (Hdb & Herr & Hs & Hx).
  cbv zeta in Hdb, Herr, Hs, Hx. rewrite Hm in Hs, Hx.
  rewrite Hdb, Herr, Hs, Hx, Hd, He, cursor_saved.
  cbn [st0 ls_db ls_err last_ai_mode max_seen_uid] in *.
  split_and!; [by destruct (w_logout w)..|done|done|done|]. eauto.
Qed.

(** A case of the statement above: the mailbox delivers 5 and 7 again. *)
Lemma all_processed_cycle_skips_witness :
  let r := check_mail poller_plain world_A "" db_A in
  (plan_of poller_plain world_A "" db_A = Go ["5"; "7"] lc_off 7
   ∧ ∀ u, u ∈ ["5"; "7"] → u ∈ processed_uids db_A)
  ∧ res_raised r = false ∧ res_status r = None ∧ res_err r = ""
  ∧ tasks (res_db r) = tasks db_A
  ∧ processed_uids (res_db r) = processed_uids db_A
  ∧ ∃ c, cursor (res_db r) = Some c ∧ 7 ≤ c
         ∧ ∀ u, u ∈ ["5"; "7"] → ∃ n, PyStr.int u = Some n ∧ n ≤ c.
Proof.
  assert (plan_of poller_plain world_A "" db_A = Go ["5"; "7"] lc_off 7)
    as Hp by (vm_compute; reflexivity).
  assert (∀ u, u ∈ ["5"; "7"] → u ∈ processed_uids db_A) as Hall.
  { assert (is_uid_processed "5" db_A = true) as H5
      by (vm_compute; reflexivity).
    assert (is_uid_processed "7" db_A = true) as H7
      by (vm_compute; reflexivity).
    apply is_uid_processed_true in H5, H7. intros u Hu.
    apply elem_of_cons in Hu as [->|Hu]; [exact H5|].
    apply elem_of_cons in Hu as [->|Hu]; [exact H7|].
    apply elem_of_nil in Hu. destruct Hu. }
  split; [split; [exact Hp|exact Hall]|].
  exact (all_processed_cycle_skips poller_plain world_A "" db_A
           ["5"; "7"] lc_off 7 Hp Hall).
Defined.
